(** * The ODrive touch-robot binary protocol (Firmware/communication/tcpacket.h)

    A shallow embedding of the packet codec of [tcpacket.h]: the CRC-16
    routine [crc16] and the inline packet builders and accessors
    [tcpkt_init], [tcpkt_size], [tcpkt_addfloat], [tcpkt_addint],
    [tcpkt_addstring], [tcpkt_getfloat], [tcpkt_getint], [tcpkt_getstring].

    Target assumptions, as for the STM32 the firmware runs on: ILP32
    ([unsigned int], [size_t] and pointers are 32 bits wide, [unsigned
    short] 16 bits), little-endian byte order, and a [float] is carried as
    its IEEE-754 binary32 bit pattern (a 32-bit word), which is all the
    codec ever does with it. *)

From Stdlib Require Import ZArith List Lia Bool.
From stdpp Require Import base tactics option list list_numbers.

Local Open Scope Z_scope.

(** ** Machine integers *)

(** Reduction of a mathematical integer to an unsigned [w]-bit one. *)
Definition wrap (w x : Z) : Z := x mod 2 ^ w.

Definition u8 : Z -> Z := wrap 8.
Definition u16 : Z -> Z := wrap 16.
Definition u32 : Z -> Z := wrap 32.

(** [~x] on an [unsigned int]. *)
Definition not32 (x : Z) : Z := u32 (Z.lnot x).

(** [x << n] on an [unsigned int]. *)
Definition shl32 (x n : Z) : Z := u32 (Z.shiftl x n).

Definition is_byte (b : Z) : Prop := 0 <= b < 256.

(** ** The CRC engine *)

Definition CRC16_POLY : Z := 0x8408.

(** Body of the inner [for]: one bit of [data] is folded into [crc]. *)
Definition crc16_bit (crc data : Z) : Z :=
  if Z.lxor (Z.land crc 1) (Z.land data 1) =? 0
  then Z.shiftr crc 1
  else Z.lxor (Z.shiftr crc 1) CRC16_POLY.

(** [for (i = 0, data = ...; i < 8; i++, data >>= 1)]: [n] counts the
    iterations that remain ([8 - i]). *)
Fixpoint crc16_for (n : nat) (crc data : Z) : Z :=
  match n with
  | O => crc
  | S n' => crc16_for n' (crc16_bit crc data) (Z.shiftr data 1)
  end.

(** [do { ... } while (--length);] Every iteration reads [*data_p++], so
    the loop is structural in the bytes that [data_p] points to; reading
    past them has no defined result ([None]).  [length] is an [unsigned
    short]: the decrement wraps at 16 bits. *)
Fixpoint crc16_loop (data_p : list Z) (length crc : Z) : option Z :=
  match data_p with
  | [] => None
  | c :: data_p' =>
      let crc' := crc16_for 8 crc (Z.land 255 c) in
      let length' := u16 (length - 1) in
      if length' =? 0 then Some crc' else crc16_loop data_p' length' crc'
  end.

(** [unsigned short crc16(char *data_p, unsigned short length)].  The
    locals [crc] and [data] are [unsigned int]; the result is converted to
    [unsigned short] by [return]. *)
Definition crc16 (data_p : list Z) (length : Z) : option Z :=
  let crc := 0xffff in
  if length =? 0 then Some (u16 (not32 crc))
  else
    match crc16_loop data_p length crc with
    | None => None
    | Some crc =>
        let crc := not32 crc in
        let data := crc in
        let crc := u32 (Z.lor (shl32 crc 8) (Z.land (Z.shiftr data 8) 0xff)) in
        Some (u16 crc)
    end.

(** *** The CRC as the protocol describes it

    A second definition, written after the prose of the protocol
    description and independent of the C control flow; [crc16] is compared
    with it below. *)

(** One bit: the register is shifted right, and the polynomial is mixed in
    when the register's low bit differs from the incoming bit. *)
Definition crc_bit_step (reg : Z) (bit : bool) : Z :=
  if xorb (Z.odd reg) bit
  then Z.lxor (Z.shiftr reg 1) 0x8408
  else Z.shiftr reg 1.

(** One byte: its 8 bits, least significant first. *)
Definition crc_byte_step (reg byte : Z) : Z :=
  fold_left (fun r k => crc_bit_step r (Z.testbit byte (Z.of_nat k)))
            (seq 0 8) reg.

Definition complement16 (reg : Z) : Z := 0xFFFF - reg.

Definition swap_bytes16 (x : Z) : Z := (x mod 256) * 256 + x / 256.

Definition crc16_described (bytes : list Z) : Z :=
  swap_bytes16 (complement16 (fold_left crc_byte_step bytes 0xFFFF)).

(** ** Packet layout *)

Definition TC_SEAL0 : Z := 0xA1.
Definition TC_SEAL1 : Z := 0x55.
Definition TC_SEAL2 : Z := 0xBB.
Definition TC_SEAL3 : Z := 0xA2.
Definition TC_SEAL : Z := 0xA2BB55A1.
Definition TC_MAXLEN : Z := 128.
Definition TC_HDRSIZE : Z := 12.

Definition sizeof_float : Z := 4.
Definition sizeof_int32_t : Z := 4.

(** [tcpacket_t] is a union of the header struct and [uint8_t
    data[TC_MAXLEN]]: a packet is its raw bytes, and the header fields are
    read and written at the offsets the struct gives them. *)
#[warnings="-notation-for-abbreviation"]
Notation tcpacket_t := (list Z) (only parsing).

Definition wf_packet (pkt : tcpacket_t) : Prop :=
  length pkt = Z.to_nat TC_MAXLEN /\ Forall is_byte pkt.

(** The byte at a fixed offset inside the object. *)
Definition byte_at (pkt : tcpacket_t) (off : nat) : Z := default 0 (pkt !! off).

Definition tc_seal (pkt : tcpacket_t) : Z := little_endian_to_Z 8 (take 4 pkt).
Definition tc_crc (pkt : tcpacket_t) : Z :=
  little_endian_to_Z 8 (take 2 (drop 4 pkt)).
Definition tc_cmd (pkt : tcpacket_t) : Z := byte_at pkt 6.
Definition tc_seq (pkt : tcpacket_t) : Z := byte_at pkt 7.
Definition tc_sts (pkt : tcpacket_t) : Z := byte_at pkt 8.
Definition tc_fparams (pkt : tcpacket_t) : Z := byte_at pkt 9.
Definition tc_iparams (pkt : tcpacket_t) : Z := byte_at pkt 10.
Definition tc_sparams (pkt : tcpacket_t) : Z := byte_at pkt 11.

(** ** Memory accesses through computed pointers

    The builders and accessors form [(uint8_t * ) pkt + ...] and dereference
    it.  [size_t] arithmetic and pointer arithmetic wrap at 32 bits, so the
    pointer is described by its offset from [pkt] modulo [2 ^ 32].  An access
    that does not lie inside the [TC_MAXLEN] bytes of the object has no
    defined result ([None]); nothing in the header checks for it. *)

Definition size_mul (a b : Z) : Z := u32 (a * b).
Definition size_add (a b : Z) : Z := u32 (a + b).
Definition ptr_add (off n : Z) : Z := u32 (off + n).

Definition in_packet (off n : Z) : bool :=
  (0 <=? off) && (off + n <=? TC_MAXLEN).

Definition load_bytes (pkt : tcpacket_t) (off : Z) (n : nat) : option (list Z) :=
  if in_packet off (Z.of_nat n)
  then Some (take n (drop (Z.to_nat off) pkt))
  else None.

Definition store_bytes (pkt : tcpacket_t) (off : Z) (bs : list Z)
  : option tcpacket_t :=
  if in_packet off (Z.of_nat (length bs))
  then Some (list_inserts (Z.to_nat off) bs pkt)
  else None.

(** A 32-bit object ([float] bit pattern or [int32_t]) in little-endian
    byte order. *)
Definition load32 (pkt : tcpacket_t) (off : Z) : option Z :=
  little_endian_to_Z 8 <$> load_bytes pkt off 4.

Definition store32 (pkt : tcpacket_t) (off v : Z) : option tcpacket_t :=
  store_bytes pkt off (Z_to_little_endian 4 8 v).

(** The value of a 32-bit pattern read as [int32_t]. *)
Definition signed32 (x : Z) : Z := if x <? 2 ^ 31 then x else x - 2 ^ 32.

(** The C string that starts at the head of [mem]: the characters before
    the first NUL; [None] when [mem] ends before any NUL. *)
Fixpoint c_str (mem : list Z) : option (list Z) :=
  match mem with
  | [] => None
  | c :: mem' => if c =? 0 then Some [] else cons c <$> c_str mem'
  end.

(** What a caller sees when it reads the pointer [pkt + off] as a C
    string. *)
Definition c_str_at (pkt : tcpacket_t) (off : Z) : option (list Z) :=
  if in_packet off 0 then c_str (drop (Z.to_nat off) pkt) else None.

(** ** Builders and accessors *)

Definition memset (pkt : tcpacket_t) (c : Z) (n : Z) : tcpacket_t :=
  replicate (Z.to_nat n) (u8 c) ++ drop (Z.to_nat n) pkt.

Definition tcpkt_init (pkt : tcpacket_t) : tcpacket_t :=
  let pkt := memset pkt 0 TC_MAXLEN in
  list_inserts 0 (Z_to_little_endian 4 8 TC_SEAL) pkt.

Definition tcpkt_size (pkt : tcpacket_t) : Z :=
  size_add
    (size_add (size_add TC_HDRSIZE (size_mul (tc_fparams pkt) sizeof_float))
              (size_mul (tc_iparams pkt) sizeof_int32_t))
    (u32 (tc_sparams pkt)).

(** [pkt + TC_HDRSIZE + tc_fparams * sizeof(float)] *)
Definition float_end (pkt : tcpacket_t) : Z :=
  ptr_add TC_HDRSIZE (size_mul (tc_fparams pkt) sizeof_float).

(** [pkt + TC_HDRSIZE + tc_fparams * sizeof(float) + tc_iparams * sizeof(int32_t)] *)
Definition int_end (pkt : tcpacket_t) : Z :=
  ptr_add (float_end pkt) (size_mul (tc_iparams pkt) sizeof_int32_t).

Definition tcpkt_addfloat (pkt : tcpacket_t) (v : Z) : option tcpacket_t :=
  let ptr := float_end pkt in
  pkt' ← store32 pkt ptr v;
  Some (<[9%nat := u8 (tc_fparams pkt' + 1)]> pkt').

Definition tcpkt_addint (pkt : tcpacket_t) (v : Z) : option tcpacket_t :=
  let ptr := int_end pkt in
  pkt' ← store32 pkt ptr v;
  Some (<[10%nat := u8 (tc_iparams pkt' + 1)]> pkt').

(** [str] is the memory [str] points to; [strcpy] copies its C string and
    the terminating NUL, [strlen] counts the characters before the NUL. *)
Definition tcpkt_addstring (pkt : tcpacket_t) (str : list Z) : option tcpacket_t :=
  let ptr := int_end pkt in
  s ← c_str str;
  pkt' ← store_bytes pkt ptr (s ++ [0]);
  Some (<[11%nat := u8 (Z.of_nat (length s) + 1)]> pkt').

Definition tcpkt_getfloat (pkt : tcpacket_t) (idx : Z) : option Z :=
  let ptr := ptr_add TC_HDRSIZE (size_mul (u32 idx) sizeof_float) in
  load32 pkt ptr.

Definition tcpkt_getint (pkt : tcpacket_t) (idx : Z) : option Z :=
  let ptr := ptr_add (float_end pkt) (size_mul (u32 idx) sizeof_int32_t) in
  signed32 <$> load32 pkt ptr.

(** Returns the pointer, as its offset from [pkt]; nothing is read. *)
Definition tcpkt_getstring (pkt : tcpacket_t) : Z := int_end pkt.

(** Appending a sequence of values with one of the builders, in order. *)
Fixpoint add_all (add : tcpacket_t -> Z -> option tcpacket_t)
                 (vs : list Z) (pkt : tcpacket_t) : option tcpacket_t :=
  match vs with
  | [] => Some pkt
  | v :: vs' => pkt' ← add pkt v; add_all add vs' pkt'
  end.

(** ** Operations of the protocol description that the header lacks

    The header has no setters for [tc_cmd], [tc_seq] and [tc_sts] (callers
    assign the struct fields) and no decoder; what follows is written after
    the protocol description. *)

Inductive codec_error : Set :=
  | ERR_SHORT | ERR_SEAL | ERR_LENGTH | ERR_CRC | ERR_STRING
  | ERR_ORDER | ERR_VALUE | ERR_PARAM.

(** Modelled from the spec: the setter [set_cmd], missing from the header:
    "write cmd = code | (0x80 if is_response else 0). Fails with ERR_PARAM
    if code > 0x7F". *)
Definition set_cmd (buf : tcpacket_t) (code : Z) (is_response : bool)
  : codec_error + tcpacket_t :=
  if 0x7F <? code then inl ERR_PARAM
  else inr (<[6%nat := Z.lor code (if is_response then 0x80 else 0)]> buf).

(** Modelled from the spec: the setter [set_seq], missing from the header:
    a "direct header field write". *)
Definition set_seq (buf : tcpacket_t) (seq : Z) : tcpacket_t :=
  <[7%nat := seq]> buf.

(** Modelled from the spec: the setter [set_status], missing from the
    header: a "direct header field write". *)
Definition set_status (buf : tcpacket_t) (sts : Z) : tcpacket_t :=
  <[8%nat := sts]> buf.

(** The encoding sequence of the protocol description: init, the header
    setters, every float, every int, then the string if there is one.  The
    string is handed to [tcpkt_addstring] as C sees it, followed by its
    terminating NUL. *)
Definition build (buf : tcpacket_t) (code : Z) (is_response : bool)
                 (seq sts : Z) (F I : list Z) (S : option (list Z))
  : option tcpacket_t :=
  match set_cmd (tcpkt_init buf) code is_response with
  | inl _ => None
  | inr pkt =>
      let pkt := set_status (set_seq pkt seq) sts in
      pkt ← add_all tcpkt_addfloat F pkt;
      pkt ← add_all tcpkt_addint I pkt;
      match S with
      | None => Some pkt
      | Some s => tcpkt_addstring pkt (s ++ [0])
      end
  end.

(** A decoded view borrows the bytes it was parsed from. *)
Record View : Type := { view_bytes : list Z }.

Definition seal_bytes : list Z := [TC_SEAL0; TC_SEAL1; TC_SEAL2; TC_SEAL3].

(** The total length that the counts at offsets 9, 10 and 11 declare. *)
Definition expected_total (bytes : list Z) : Z :=
  12 + 4 * byte_at bytes 9 + 4 * byte_at bytes 10 + byte_at bytes 11.

(** The first [expected_total] bytes with positions 4 and 5 replaced by
    zero, as a copy. *)
Definition crc_view (bytes : list Z) : list Z :=
  take (Z.to_nat (expected_total bytes)) (<[4%nat := 0]> (<[5%nat := 0]> bytes)).

Definition stored_crc (bytes : list Z) : Z :=
  little_endian_to_Z 8 (take 2 (drop 4 bytes)).

(** Modelled from the spec: the decoder [parse], missing from the header;
    the five gates of its "validation order", the first failure stops.  The
    CRC itself is the header's [crc16]. *)
Definition parse (bytes : list Z) : codec_error + View :=
  if Z.of_nat (length bytes) <? 12 then inl ERR_SHORT
  else if negb (bool_decide (take 4 bytes = seal_bytes)) then inl ERR_SEAL
  else
    let total := expected_total bytes in
    if negb ((total <=? 128) && (total <=? Z.of_nat (length bytes)))
    then inl ERR_LENGTH
    else if (0 <? byte_at bytes 11)
            && negb (byte_at bytes (Z.to_nat (total - 1)) =? 0)
    then inl ERR_STRING
    else if bool_decide (crc16 (crc_view bytes) total = Some (stored_crc bytes))
    then inr {| view_bytes := bytes |}
    else inl ERR_CRC.

(** ** Decidable well-formedness and sample packets *)

#[global] Instance is_byte_dec (b : Z) : Decision (is_byte b).
Proof. unfold is_byte. apply _. Defined.

#[global] Instance wf_packet_dec (pkt : tcpacket_t) : Decision (wf_packet pkt).
Proof. unfold wf_packet. apply _. Defined.

(** A caller's buffer before [tcpkt_init]. *)
Definition zero_buf : tcpacket_t := replicate 128 0.

(** The packet after [tcpkt_init] and one [tcpkt_addint(pkt, 7)]. *)
Definition pkt_with_int : tcpacket_t :=
  <[10%nat := 1]> (<[12%nat := 7]> (tcpkt_init zero_buf)).

(** The packet after [tcpkt_init] and 29 calls of [tcpkt_addint(pkt, 7)]:
    128 bytes, the tail full. *)
Definition pkt_full_ints : tcpacket_t :=
  <[10%nat := 29]>
    (list_inserts 12 (mjoin (replicate 29 [7; 0; 0; 0])) (tcpkt_init zero_buf)).

(** The packet after [tcpkt_init] and 29 calls of [tcpkt_addfloat(pkt,
    1.0f)]: 128 bytes, the tail full. *)
Definition pkt_full_floats : tcpacket_t :=
  <[9%nat := 29]>
    (list_inserts 12 (mjoin (replicate 29 [0; 0; 0x80; 0x3F])) (tcpkt_init zero_buf)).

(** The packet after [tcpkt_init] and [tcpkt_addstring(pkt, "A")]. *)
Definition pkt_with_string : tcpacket_t :=
  <[11%nat := 2]> (<[12%nat := 65]> (tcpkt_init zero_buf)).

(** ** Frame conditions *)

(** Every byte of the packet other than the count byte at [c] and the
    bytes at offsets [lo <= j < hi] is the same in [pkt'] as in [pkt]. *)
Definition unchanged_outside (lo hi : Z) (c : nat) (pkt pkt' : tcpacket_t) : Prop :=
  length pkt' = length pkt /\
  forall j : nat, j <> c -> ~ (lo <= Z.of_nat j < hi) -> pkt' !! j = pkt !! j.

(** The header fields that are not counts. *)
Definition header_kept (pkt pkt' : tcpacket_t) : Prop :=
  tc_seal pkt' = tc_seal pkt /\ tc_crc pkt' = tc_crc pkt /\
  tc_cmd pkt' = tc_cmd pkt /\ tc_seq pkt' = tc_seq pkt /\
  tc_sts pkt' = tc_sts pkt.

(** ** What a successful append leaves behind

    [pkt] is the packet before the call, [pkt'] the packet after it. *)

(** [tcpkt_addfloat]: only the 4-byte slot at 12 + 4·nfloat and the nfloat
    count differ; the slot holds [v], the count grew by one, and the floats
    appended before read back as they did. *)
Definition addfloat_post (pkt : tcpacket_t) (v : Z) (pkt' : tcpacket_t) : Prop :=
  unchanged_outside (12 + 4 * tc_fparams pkt) (12 + 4 * tc_fparams pkt + 4)
                    9 pkt pkt' /\
  tc_fparams pkt' = tc_fparams pkt + 1 /\
  load32 pkt' (12 + 4 * tc_fparams pkt) = Some (u32 v) /\
  header_kept pkt pkt' /\
  tc_iparams pkt' = tc_iparams pkt /\ tc_sparams pkt' = tc_sparams pkt /\
  (forall i, 0 <= i < tc_fparams pkt ->
             tcpkt_getfloat pkt' i = tcpkt_getfloat pkt i).

(** [tcpkt_addint]: only the 4-byte slot at 12 + 4·nfloat + 4·nint and the
    nint count differ; the floats and ints appended before read back as they
    did. *)
Definition addint_post (pkt : tcpacket_t) (v : Z) (pkt' : tcpacket_t) : Prop :=
  unchanged_outside (12 + 4 * tc_fparams pkt + 4 * tc_iparams pkt)
                    (12 + 4 * tc_fparams pkt + 4 * tc_iparams pkt + 4)
                    10 pkt pkt' /\
  tc_iparams pkt' = tc_iparams pkt + 1 /\
  load32 pkt' (12 + 4 * tc_fparams pkt + 4 * tc_iparams pkt) = Some (u32 v) /\
  header_kept pkt pkt' /\
  tc_fparams pkt' = tc_fparams pkt /\ tc_sparams pkt' = tc_sparams pkt /\
  (forall i, 0 <= i < tc_fparams pkt ->
             tcpkt_getfloat pkt' i = tcpkt_getfloat pkt i) /\
  (forall i, 0 <= i < tc_iparams pkt ->
             tcpkt_getint pkt' i = tcpkt_getint pkt i).

(** [tcpkt_addstring] of the C string [s]: only the [length s + 1] bytes at
    12 + 4·nfloat + 4·nint and the nstr count differ; nstr is [length s + 1]
    and the pointer that [tcpkt_getstring] returns reads back [s]. *)
Definition addstring_post (pkt : tcpacket_t) (s : list Z) (pkt' : tcpacket_t) : Prop :=
  unchanged_outside
    (12 + 4 * tc_fparams pkt + 4 * tc_iparams pkt)
    (12 + 4 * tc_fparams pkt + 4 * tc_iparams pkt + Z.of_nat (length s) + 1)
    11 pkt pkt' /\
  tc_sparams pkt' = Z.of_nat (length s) + 1 /\
  c_str_at pkt' (tcpkt_getstring pkt') = Some s /\
  header_kept pkt pkt' /\
  tc_fparams pkt' = tc_fparams pkt /\ tc_iparams pkt' = tc_iparams pkt /\
  (forall i, 0 <= i < tc_fparams pkt ->
             tcpkt_getfloat pkt' i = tcpkt_getfloat pkt i) /\
  (forall i, 0 <= i < tc_iparams pkt ->
             tcpkt_getint pkt' i = tcpkt_getint pkt i).

(** ** Parameter values *)

(** A [float], as its binary32 bit pattern. *)
Definition is_float_bits (f : Z) : Prop := 0 <= f < 2 ^ 32.

(** An [int32_t]. *)
Definition is_int32 (v : Z) : Prop := - 2 ^ 31 <= v < 2 ^ 31.

(** A character of a string: any byte but NUL. *)
Definition is_char (c : Z) : Prop := 0 < c < 256.

(** The bytes that the parameters take in the tail. *)
Definition tail_size (F I : list Z) (S : option (list Z)) : Z :=
  4 * Z.of_nat (length F) + 4 * Z.of_nat (length I)
  + match S with Some s => Z.of_nat (length s) + 1 | None => 0 end.

(** ** The five gates of the decoder, as conditions on the input *)

Definition gate_short (bytes : list Z) : Prop := 12 <= Z.of_nat (length bytes).

Definition gate_seal (bytes : list Z) : Prop := take 4 bytes = seal_bytes.

Definition gate_length (bytes : list Z) : Prop :=
  expected_total bytes <= 128 /\ expected_total bytes <= Z.of_nat (length bytes).

Definition gate_string (bytes : list Z) : Prop :=
  0 < byte_at bytes 11 ->
  byte_at bytes (Z.to_nat (expected_total bytes - 1)) = 0.

(** The CRC of the first [expected_total] bytes, positions 4 and 5 taken
    as zero, equals the stored little-endian crc field. *)
Definition gate_crc (bytes : list Z) : Prop :=
  crc16_described (crc_view bytes) = stored_crc bytes.

(** A finalized PING request with sequence number 7: its twelve bytes. *)
Definition ping_bytes : list Z := [0xA1; 0x55; 0xBB; 0xA2; 0x8E; 0xE6; 0; 7; 0; 0; 0; 0].

(** * More of the header *)

(** ** Sequences of appends *)

(** One call of a builder. *)
Inductive append : Type :=
  | AddFloat (v : Z)
  | AddInt (v : Z)
  | AddString (str : list Z).

Definition append_to (pkt : tcpacket_t) (a : append) : option tcpacket_t :=
  match a with
  | AddFloat v => tcpkt_addfloat pkt v
  | AddInt v => tcpkt_addint pkt v
  | AddString str => tcpkt_addstring pkt str
  end.

(** The builders called one after the other, in any order. *)
Fixpoint append_all (ops : list append) (pkt : tcpacket_t) : option tcpacket_t :=
  match ops with
  | [] => Some pkt
  | a :: ops' => pkt' ← append_to pkt a; append_all ops' pkt'
  end.

(** The memory a string argument points to holds bytes. *)
Definition append_bytes (a : append) : Prop :=
  match a with
  | AddString str => Forall is_byte str
  | _ => True
  end.

(** The bytes that a call of a builder stores lie inside the [TC_MAXLEN]
    bytes of the packet: 4 bytes at the end of the floats, 4 bytes at the end
    of the ints, or the C string of [str] and its NUL at the end of the
    ints. *)
Definition stores_inside (pkt : tcpacket_t) (a : append) : Prop :=
  match a with
  | AddFloat _ => float_end pkt + sizeof_float <= TC_MAXLEN
  | AddInt _ => int_end pkt + sizeof_int32_t <= TC_MAXLEN
  | AddString str =>
      exists s, c_str str = Some s /\
                int_end pkt + Z.of_nat (length s) + 1 <= TC_MAXLEN
  end.

(** The packet a caller gets from [tcpkt_init], every float, every int and
    then the string if there is one, with no header field assigned. *)
Definition encode (buf : tcpacket_t) (F I : list Z) (S : option (list Z))
  : option tcpacket_t :=
  pkt ← add_all tcpkt_addfloat F (tcpkt_init buf);
  pkt ← add_all tcpkt_addint I pkt;
  match S with
  | None => Some pkt
  | Some s => tcpkt_addstring pkt (s ++ [0])
  end.

(** ** The bits of a byte, least significant first *)

Definition byte_bits (byte : Z) : list bool :=
  map (fun k => Z.testbit byte (Z.of_nat k)) (seq 0 8).

(** A string of 115 characters, then 29 ints, then 29 floats: every call
    writes inside the buffer. *)
Definition overfull_appends : list append :=
  AddString (replicate 115 65 ++ [0])
  :: replicate 29 (AddInt 7) ++ replicate 29 (AddFloat 0x3F800000).

(** Appends in no particular order, a string twice. *)
Definition mixed_appends : list append :=
  [AddFloat 0x3F800000; AddString [65; 66; 0]; AddInt 7; AddString [67; 0]].

(** ** Command and status codes *)

Definition TCCMD_PING : Z := 0.
Definition TCCMD_POSITION : Z := 1.
Definition TCCMD_POSLIMITS : Z := 3.
Definition TCCMD_TRAPTRAJ : Z := 5.
Definition TCCMD_ZEROENCODER : Z := 7.
Definition TCCMD_STATUS : Z := 9.
Definition TCCMD_GETIPROP : Z := 11.
Definition TCCMD_GETFPROP : Z := 13.
Definition TCCMD_SETIPROP : Z := 15.
Definition TCCMD_SETFPROP : Z := 17.
Definition TCCMD_FEEDWATCHDOG : Z := 19.

Definition TCCMD_RESPBIT : Z := 0x80.

Definition TCSTS_OK : Z := 0.
Definition TCSTS_ERR_CMD : Z := 1.
Definition TCSTS_ERR_STATE : Z := 2.
Definition TCSTS_ERR_PARAM : Z := 3.
Definition TCSTS_ERR_VALUE : Z := 4.

(** The command codes the header defines. *)
Definition tc_commands : list Z :=
  [TCCMD_PING; TCCMD_POSITION; TCCMD_POSLIMITS; TCCMD_TRAPTRAJ;
   TCCMD_ZEROENCODER; TCCMD_STATUS; TCCMD_GETIPROP; TCCMD_GETFPROP;
   TCCMD_SETIPROP; TCCMD_SETFPROP; TCCMD_FEEDWATCHDOG].

(** * Proofs *)

(** ** The CRC engine against its description *)

Lemma land_1_odd x : Z.land x 1 = if Z.odd x then 1 else 0.
Proof.
  change 1 with (Z.ones 1) at 1. rewrite Z.land_ones by lia.
  change (2 ^ 1) with 2. apply Zmod_odd.
Qed.

Lemma crc16_bit_described crc data :
  crc16_bit crc data = crc_bit_step crc (Z.testbit data 0).
Proof.
  unfold crc16_bit, crc_bit_step. rewrite !land_1_odd, Z.bit0_odd.
  destruct (Z.odd crc), (Z.odd data); reflexivity.
Qed.

Lemma lxor_range n a b :
  0 <= n -> 0 <= a < 2 ^ n -> 0 <= b < 2 ^ n -> 0 <= Z.lxor a b < 2 ^ n.
Proof.
  intros Hn Ha Hb. split; [apply Z.lxor_nonneg; lia|].
  replace (Z.lxor a b) with (Z.lxor a b mod 2 ^ n); [apply Z.mod_pos_bound; lia|].
  rewrite <- Z.land_ones by lia.
  apply Z.bits_inj'. intros i Hi.
  rewrite Z.land_spec, Z.lxor_spec.
  destruct (Z.ltb_spec i n).
  - rewrite Z.ones_spec_low by lia. apply andb_true_r.
  - assert (Ha' : Z.testbit a i = false).
    { rewrite <- (Z.mod_small a (2 ^ n)) by lia. apply Z.mod_pow2_bits_high; lia. }
    assert (Hb' : Z.testbit b i = false).
    { rewrite <- (Z.mod_small b (2 ^ n)) by lia. apply Z.mod_pow2_bits_high; lia. }
    rewrite Ha', Hb'. reflexivity.
Qed.

Lemma crc_bit_step_range reg bit :
  0 <= reg < 2 ^ 16 -> 0 <= crc_bit_step reg bit < 2 ^ 16.
Proof.
  intros Hr. unfold crc_bit_step.
  assert (0 <= Z.shiftr reg 1 < 2 ^ 15).
  { rewrite Z.shiftr_div_pow2 by lia. change (2 ^ 1) with 2.
    change (2 ^ 15) with 32768. change (2 ^ 16) with 65536 in Hr.
    split; [apply Z.div_pos; lia|apply Z.div_lt_upper_bound; lia]. }
  destruct (xorb _ _).
  - apply lxor_range; [lia| |]; change (2 ^ 16) with 65536;
      change (2 ^ 15) with 32768 in *; lia.
  - change (2 ^ 16) with 65536; change (2 ^ 15) with 32768 in *; lia.
Qed.

Lemma crc_byte_step_range reg byte :
  0 <= reg < 2 ^ 16 -> 0 <= crc_byte_step reg byte < 2 ^ 16.
Proof.
  unfold crc_byte_step. generalize (seq 0 8). intros l. revert reg.
  induction l as [|k l IH]; intros reg Hr; simpl; [exact Hr|].
  apply IH, crc_bit_step_range, Hr.
Qed.

Lemma crc16_for_described n : forall (k : nat) crc data,
  crc16_for n crc (Z.shiftr data (Z.of_nat k)) =
  fold_left (fun r j => crc_bit_step r (Z.testbit data (Z.of_nat j)))
            (seq k n) crc.
Proof.
  induction n as [|n IH]; intros k crc data; simpl; [reflexivity|].
  rewrite crc16_bit_described, Z.shiftr_spec by lia. simpl.
  rewrite Z.shiftr_shiftr by lia.
  replace (Z.of_nat k + 1) with (Z.of_nat (S k)) by lia.
  apply IH.
Qed.

Lemma crc16_for_byte crc data : crc16_for 8 crc data = crc_byte_step crc data.
Proof. exact (crc16_for_described 8 0 crc data). Qed.

Lemma land_255_byte c : is_byte c -> Z.land 255 c = c.
Proof.
  intros Hc. rewrite Z.land_comm. change 255 with (Z.ones 8).
  rewrite Z.land_ones by lia. apply Z.mod_small. exact Hc.
Qed.

(** The loop, run over exactly the bytes it is asked to cover. *)
Lemma crc16_loop_described data : forall rest crc,
  data <> [] -> Z.of_nat (length data) <= 65535 -> Forall is_byte data ->
  crc16_loop (data ++ rest) (Z.of_nat (length data)) crc =
  Some (fold_left crc_byte_step data crc).
Proof.
  induction data as [|c data IH]; intros rest crc Hne Hlen Hb; [done|].
  inversion_clear Hb as [|? ? Hc Hb'].
  cbn [app crc16_loop fold_left].
  rewrite crc16_for_byte, land_255_byte by done.
  replace (Z.of_nat (length (c :: data)) - 1) with (Z.of_nat (length data))
    by (cbn [length]; lia).
  cbn [length] in Hlen.
  unfold u16, wrap. rewrite Z.mod_small by (change (2 ^ 16) with 65536; lia).
  destruct data as [|c' data'].
  - reflexivity.
  - replace (Z.of_nat (length (c' :: data')) =? 0) with false
      by (symmetry; apply Z.eqb_neq; cbn [length]; lia).
    apply IH; [done|lia|done].
Qed.

Lemma lor_low_byte a b :
  0 <= b < 256 -> Z.lor (Z.shiftl a 8) b = a * 256 + b.
Proof.
  intros Hb.
  replace (a * 256) with (Z.shiftl a 8) by (rewrite Z.shiftl_mul_pow2 by lia; reflexivity).
  rewrite <- Z.add_lor_land.
  replace (Z.land (Z.shiftl a 8) b) with 0; [lia|].
  symmetry. apply Z.bits_inj'. intros i Hi.
  rewrite Z.land_spec, Z.bits_0.
  destruct (Z.ltb_spec i 8).
  - rewrite Z.shiftl_spec_low by lia. reflexivity.
  - replace (Z.testbit b i) with false; [apply andb_false_r|].
    symmetry. rewrite <- (Z.mod_small b (2 ^ 8)) by (change (2 ^ 8) with 256; lia).
    apply Z.mod_pow2_bits_high; lia.
Qed.

Lemma not32_16 r : 0 <= r < 2 ^ 16 -> not32 r = 0xFFFFFFFF - r.
Proof.
  intros Hr. unfold not32, u32, wrap, Z.lnot. change (2 ^ 16) with 65536 in Hr.
  change (2 ^ 32) with 4294967296.
  symmetry. apply (Z.mod_unique _ _ (-1)); lia.
Qed.

Lemma final_swap r :
  0 <= r < 2 ^ 16 ->
  u16 (u32 (Z.lor (shl32 (not32 r) 8) (Z.land (Z.shiftr (not32 r) 8) 0xff))) =
  swap_bytes16 (complement16 r).
Proof.
  intros Hr. rewrite not32_16 by done.
  unfold swap_bytes16, complement16, shl32, u16, u32, wrap.
  change (2 ^ 16) with 65536 in *. change (2 ^ 32) with 4294967296.
  change 255 with (Z.ones 8). rewrite Z.land_ones, Z.shiftr_div_pow2 by lia.
  change (2 ^ 8) with 256.
  rewrite Z.shiftl_mul_pow2 by lia. change (2 ^ 8) with 256.
  set (N := 4294967295 - r).
  assert (HA : (N * 256) mod 4294967296 = Z.shiftl ((N mod 16777216)) 8).
  { rewrite Z.shiftl_mul_pow2 by lia. change (2 ^ 8) with 256.
    Z.div_mod_to_equations. lia. }
  rewrite HA, lor_low_byte by (apply Z.mod_pos_bound; lia).
  subst N. Z.div_mod_to_equations. lia.
Qed.

Lemma crc_fold_range data : forall reg,
  0 <= reg < 2 ^ 16 -> 0 <= fold_left crc_byte_step data reg < 2 ^ 16.
Proof.
  induction data as [|c data IH]; intros reg Hr; cbn [fold_left]; [exact Hr|].
  apply IH, crc_byte_step_range, Hr.
Qed.

(** [crc16] over the first [length data] bytes of a buffer that may go on
    after them. *)
Lemma crc16_prefix data rest :
  data <> [] -> Z.of_nat (length data) <= 65535 -> Forall is_byte data ->
  crc16 (data ++ rest) (Z.of_nat (length data)) = Some (crc16_described data).
Proof.
  intros Hne Hlen Hb. unfold crc16.
  replace (Z.of_nat (length data) =? 0) with false
    by (symmetry; apply Z.eqb_neq; destruct data; [done|cbn [length]; lia]).
  rewrite crc16_loop_described by done.
  unfold crc16_described. f_equal. apply final_swap.
  apply crc_fold_range. change (2 ^ 16) with 65536. lia.
Qed.

(** C1: given a byte sequence of length n > 0 (n an [unsigned short]),
    [crc16] computes the value obtained by starting from register 0xFFFF,
    processing each byte's 8 bits LSB-first, replacing the register by
    (register >> 1) XOR 0x8408 when the register LSB XOR the current bit is 1
    and by register >> 1 otherwise, complementing the register after all
    bytes and finally swapping the high and low bytes of the 16-bit
    result. *)
Theorem crc16_computes_described (data : list Z) :
  Forall is_byte data ->
  0 < Z.of_nat (length data) <= 65535 ->
  crc16 data (Z.of_nat (length data)) = Some (crc16_described data).
Proof.
  intros Hb [Hpos Hlen].
  rewrite <- (app_nil_r data) at 1. apply crc16_prefix; [|done|done].
  intros ->. cbn [length] in Hpos. lia.
Qed.

Lemma crc16_computes_described_witness :
  crc16 [0x31; 0x32; 0x33; 0x34; 0x35; 0x36; 0x37; 0x38; 0x39]
        (Z.of_nat (length [0x31; 0x32; 0x33; 0x34; 0x35; 0x36; 0x37; 0x38; 0x39]))
  = Some (crc16_described [0x31; 0x32; 0x33; 0x34; 0x35; 0x36; 0x37; 0x38; 0x39]).
Proof.
  apply (crc16_computes_described
           [0x31; 0x32; 0x33; 0x34; 0x35; 0x36; 0x37; 0x38; 0x39]).
  - repeat constructor; vm_compute; discriminate.
  - split; vm_compute; [reflexivity|discriminate].
Defined.

(** C9: on the empty input (length 0) [crc16] returns exactly 0x0000, and
    it does so without running the per-byte loop: no byte is read, so the
    result is the same whatever [data_p] points to, even when there is no
    byte to read at all. *)
Theorem crc16_empty (data_p : list Z) : crc16 data_p 0 = Some 0x0000.
Proof. reflexivity. Qed.

(** ** Bytes, wrap-around and bounds *)

Lemma u32_small x : 0 <= x < 2 ^ 32 -> u32 x = x.
Proof. apply Z.mod_small. Qed.

Lemma u8_small x : 0 <= x < 2 ^ 8 -> u8 x = x.
Proof. apply Z.mod_small. Qed.

Lemma byte_at_is_byte (pkt : tcpacket_t) i :
  Forall is_byte pkt -> is_byte (byte_at pkt i).
Proof.
  intros Hb. unfold byte_at. destruct (pkt !! i) as [b|] eqn:E; simpl.
  - exact (Forall_lookup_1 _ _ _ _ Hb E).
  - unfold is_byte. lia.
Qed.

Lemma byte_at_lookup (pkt : tcpacket_t) i b : pkt !! i = Some b -> byte_at pkt i = b.
Proof. unfold byte_at. intros ->. reflexivity. Qed.

Lemma byte_at_agree (pkt pkt' : tcpacket_t) i :
  pkt' !! i = pkt !! i -> byte_at pkt' i = byte_at pkt i.
Proof. unfold byte_at. intros ->. reflexivity. Qed.

Lemma size_mul_byte b : is_byte b -> size_mul b 4 = 4 * b.
Proof.
  unfold is_byte, size_mul. intros Hb.
  rewrite u32_small; change (2 ^ 32) with 4294967296; lia.
Qed.

Lemma ptr_add_small a b : 0 <= a + b < 2 ^ 32 -> ptr_add a b = a + b.
Proof. apply u32_small. Qed.

Lemma float_end_eq (pkt : tcpacket_t) :
  Forall is_byte pkt -> float_end pkt = 12 + 4 * tc_fparams pkt.
Proof.
  intros Hb. pose proof (byte_at_is_byte pkt 9 Hb) as H9.
  unfold float_end, TC_HDRSIZE, sizeof_float, tc_fparams.
  rewrite size_mul_byte by done. unfold is_byte in H9.
  apply ptr_add_small. change (2 ^ 32) with 4294967296. lia.
Qed.

Lemma int_end_eq (pkt : tcpacket_t) :
  Forall is_byte pkt ->
  int_end pkt = 12 + 4 * tc_fparams pkt + 4 * tc_iparams pkt.
Proof.
  intros Hb. unfold int_end. rewrite float_end_eq by done.
  pose proof (byte_at_is_byte pkt 9 Hb) as H9.
  pose proof (byte_at_is_byte pkt 10 Hb) as H10.
  unfold sizeof_int32_t, tc_fparams, tc_iparams.
  rewrite size_mul_byte by done. unfold is_byte in *.
  apply ptr_add_small. change (2 ^ 32) with 4294967296. lia.
Qed.

Lemma tcpkt_size_eq (pkt : tcpacket_t) :
  Forall is_byte pkt ->
  tcpkt_size pkt = 12 + 4 * tc_fparams pkt + 4 * tc_iparams pkt + tc_sparams pkt.
Proof.
  intros Hb. unfold tcpkt_size.
  change (size_add (size_add TC_HDRSIZE (size_mul (tc_fparams pkt) sizeof_float))
                   (size_mul (tc_iparams pkt) sizeof_int32_t))
    with (int_end pkt).
  rewrite int_end_eq by done.
  pose proof (byte_at_is_byte pkt 9 Hb) as H9.
  pose proof (byte_at_is_byte pkt 10 Hb) as H10.
  pose proof (byte_at_is_byte pkt 11 Hb) as H11.
  unfold tc_fparams, tc_iparams, tc_sparams, is_byte in *.
  rewrite (u32_small (byte_at pkt 11)) by (change (2 ^ 32) with 4294967296; lia).
  apply u32_small. change (2 ^ 32) with 4294967296. lia.
Qed.

Lemma length_le32 v : length (Z_to_little_endian 4 8 v) = 4%nat.
Proof. pose proof (length_Z_to_little_endian 4 8 v). lia. Qed.

Lemma le32_is_byte v : Forall is_byte (Z_to_little_endian 4 8 v).
Proof. apply (Z_to_little_endian_bound 4 8 v); lia. Qed.

(** ** Loads and stores *)

Lemma in_packet_true off n :
  0 <= off -> off + n <= 128 -> in_packet off n = true.
Proof.
  intros. unfold in_packet, TC_MAXLEN.
  apply andb_true_intro; split; [apply Z.leb_le|apply Z.leb_le]; lia.
Qed.

Lemma in_packet_false off n : 128 < off + n -> in_packet off n = false.
Proof.
  intros. unfold in_packet, TC_MAXLEN.
  apply andb_false_intro2. apply Z.leb_gt. lia.
Qed.

(** A load sees only the bytes it covers. *)
Lemma load_bytes_agree (pkt pkt' : tcpacket_t) off n :
  (forall j : nat, off <= Z.of_nat j < off + Z.of_nat n -> pkt' !! j = pkt !! j) ->
  load_bytes pkt' off n = load_bytes pkt off n.
Proof.
  intros Hag. unfold load_bytes.
  destruct (in_packet off (Z.of_nat n)) eqn:Hin; [|reflexivity].
  apply andb_prop in Hin as [Hlo _]. apply Z.leb_le in Hlo.
  f_equal. apply list_eq. intros i.
  destruct (decide (i < n)%nat) as [Hi|Hi].
  - rewrite !lookup_take_lt, !lookup_drop by lia. apply Hag. lia.
  - rewrite !lookup_take_ge by lia. reflexivity.
Qed.

(** A store followed by a load of the same bytes. *)
Lemma load_bytes_inserts (pkt : tcpacket_t) (off : nat) bs :
  (off + length bs <= length pkt)%nat ->
  take (length bs) (drop off (list_inserts off bs pkt)) = bs.
Proof.
  intros Hlen. apply list_eq. intros i.
  destruct (decide (i < length bs)%nat) as [Hi|Hi].
  - rewrite lookup_take_lt, lookup_drop by lia.
    rewrite list_lookup_inserts by lia. f_equal. lia.
  - rewrite lookup_take_ge by lia. symmetry. apply lookup_ge_None. lia.
Qed.

(** What a count update on top of a store leaves in the packet. *)
Section update.
Variables (pkt : tcpacket_t) (c off : nat) (x : Z) (bs : list Z).
Let pkt' : tcpacket_t := <[c := x]> (list_inserts off bs pkt).

Lemma update_length : length pkt' = length pkt.
Proof. unfold pkt'. rewrite length_insert, length_inserts. reflexivity. Qed.

Lemma update_frame (j : nat) :
  j <> c -> (j < off \/ off + length bs <= j)%nat -> pkt' !! j = pkt !! j.
Proof.
  intros Hc Hj. unfold pkt'. rewrite list_lookup_insert_ne by done.
  destruct Hj; [apply list_lookup_inserts_lt|apply list_lookup_inserts_ge]; lia.
Qed.

Lemma update_count : (c < length pkt)%nat -> pkt' !! c = Some x.
Proof.
  intros Hc. unfold pkt'. apply list_lookup_insert_eq.
  rewrite length_inserts. exact Hc.
Qed.

Lemma update_slot :
  (c < off)%nat -> (off + length bs <= length pkt)%nat ->
  take (length bs) (drop off pkt') = bs.
Proof.
  intros Hc Hlen. rewrite <- (load_bytes_inserts pkt off bs Hlen) at 2.
  apply list_eq. intros i.
  destruct (decide (i < length bs)%nat) as [Hi|Hi].
  - rewrite !lookup_take_lt, !lookup_drop by lia.
    unfold pkt'. apply list_lookup_insert_ne. lia.
  - rewrite !lookup_take_ge by lia. reflexivity.
Qed.

Lemma update_is_byte :
  Forall is_byte pkt -> is_byte x -> Forall is_byte bs -> Forall is_byte pkt'.
Proof.
  intros Hp Hx Hbs. unfold pkt'. apply Forall_insert; [|exact Hx].
  clear pkt'. revert off. induction bs as [|b bs' IH]; intros o; simpl; [exact Hp|].
  inversion_clear Hbs. apply Forall_insert; [apply IH|]; assumption.
Qed.
End update.

(** ** The builders in closed form *)

Lemma wf_length (pkt : tcpacket_t) : wf_packet pkt -> length pkt = 128%nat.
Proof. intros [Hl _]. exact Hl. Qed.

Lemma store32_Some (pkt : tcpacket_t) off v :
  0 <= off -> off + 4 <= 128 ->
  store32 pkt off v =
  Some (list_inserts (Z.to_nat off) (Z_to_little_endian 4 8 v) pkt).
Proof.
  intros. unfold store32, store_bytes. rewrite length_le32.
  rewrite in_packet_true by lia. reflexivity.
Qed.

Lemma store32_None (pkt : tcpacket_t) off v :
  128 < off + 4 -> store32 pkt off v = None.
Proof.
  intros. unfold store32, store_bytes. rewrite length_le32.
  rewrite in_packet_false by lia. reflexivity.
Qed.

Lemma load32_Some (pkt : tcpacket_t) off :
  0 <= off -> off + 4 <= 128 ->
  load32 pkt off = Some (little_endian_to_Z 8 (take 4 (drop (Z.to_nat off) pkt))).
Proof.
  intros. unfold load32, load_bytes.
  rewrite in_packet_true by lia. reflexivity.
Qed.

Lemma load32_None (pkt : tcpacket_t) off : 128 < off + 4 -> load32 pkt off = None.
Proof.
  intros. unfold load32, load_bytes. rewrite in_packet_false by lia. reflexivity.
Qed.

Lemma load32_agree (pkt pkt' : tcpacket_t) off :
  (forall j : nat, off <= Z.of_nat j < off + 4 -> pkt' !! j = pkt !! j) ->
  load32 pkt' off = load32 pkt off.
Proof.
  intros Hag. unfold load32. rewrite (load_bytes_agree pkt pkt' off 4); [done|].
  intros j Hj. apply Hag. lia.
Qed.

Lemma le32_roundtrip v : little_endian_to_Z 8 (Z_to_little_endian 4 8 v) = u32 v.
Proof. rewrite little_endian_to_Z_to_little_endian by lia. reflexivity. Qed.

Lemma tcpkt_addfloat_eq (pkt : tcpacket_t) v :
  wf_packet pkt -> tc_fparams pkt <= 28 ->
  tcpkt_addfloat pkt v =
  Some (<[9%nat := tc_fparams pkt + 1]>
          (list_inserts (Z.to_nat (12 + 4 * tc_fparams pkt))
                        (Z_to_little_endian 4 8 v) pkt)).
Proof.
  intros [Hl Hb] Hn. pose proof (byte_at_is_byte pkt 9 Hb) as H9.
  unfold is_byte in H9. fold (tc_fparams pkt) in H9.
  unfold tcpkt_addfloat. rewrite float_end_eq by done.
  rewrite store32_Some by lia. cbn [mbind option_bind].
  do 2 f_equal. rewrite u8_small.
  - f_equal. apply byte_at_agree, list_lookup_inserts_lt. lia.
  - replace (tc_fparams _) with (tc_fparams pkt).
    + change (2 ^ 8) with 256. lia.
    + symmetry. apply byte_at_agree, list_lookup_inserts_lt. lia.
Qed.

Lemma tcpkt_addfloat_None (pkt : tcpacket_t) v :
  wf_packet pkt -> 29 <= tc_fparams pkt -> tcpkt_addfloat pkt v = None.
Proof.
  intros [Hl Hb] Hn. unfold tcpkt_addfloat. rewrite float_end_eq by done.
  rewrite store32_None by lia. reflexivity.
Qed.

Lemma tcpkt_addint_eq (pkt : tcpacket_t) v :
  wf_packet pkt -> 12 + 4 * tc_fparams pkt + 4 * tc_iparams pkt + 4 <= 128 ->
  tcpkt_addint pkt v =
  Some (<[10%nat := tc_iparams pkt + 1]>
          (list_inserts (Z.to_nat (12 + 4 * tc_fparams pkt + 4 * tc_iparams pkt))
                        (Z_to_little_endian 4 8 v) pkt)).
Proof.
  intros [Hl Hb] Hn. pose proof (byte_at_is_byte pkt 9 Hb) as H9.
  pose proof (byte_at_is_byte pkt 10 Hb) as H10.
  unfold is_byte in H9, H10. fold (tc_fparams pkt) in H9. fold (tc_iparams pkt) in H10.
  unfold tcpkt_addint. rewrite int_end_eq by done.
  rewrite store32_Some by lia. cbn [mbind option_bind].
  do 2 f_equal. rewrite u8_small.
  - f_equal. apply byte_at_agree, list_lookup_inserts_lt. lia.
  - replace (tc_iparams _) with (tc_iparams pkt).
    + change (2 ^ 8) with 256. lia.
    + symmetry. apply byte_at_agree, list_lookup_inserts_lt. lia.
Qed.

Lemma tcpkt_addstring_eq (pkt : tcpacket_t) str s :
  wf_packet pkt -> c_str str = Some s ->
  12 + 4 * tc_fparams pkt + 4 * tc_iparams pkt + Z.of_nat (length s) + 1 <= 128 ->
  tcpkt_addstring pkt str =
  Some (<[11%nat := Z.of_nat (length s) + 1]>
          (list_inserts (Z.to_nat (12 + 4 * tc_fparams pkt + 4 * tc_iparams pkt))
                        (s ++ [0]) pkt)).
Proof.
  intros [Hl Hb] Hs Hn. pose proof (byte_at_is_byte pkt 9 Hb) as H9.
  pose proof (byte_at_is_byte pkt 10 Hb) as H10.
  unfold is_byte in H9, H10. fold (tc_fparams pkt) in H9. fold (tc_iparams pkt) in H10.
  unfold tcpkt_addstring. rewrite int_end_eq, Hs by done. cbn [mbind option_bind].
  unfold store_bytes. rewrite length_app. cbn [length].
  rewrite in_packet_true by lia. cbn [mbind option_bind].
  rewrite u8_small; [reflexivity|]. change (2 ^ 8) with 256. lia.
Qed.

Lemma getfloat_off (pkt : tcpacket_t) idx :
  tcpkt_getfloat pkt idx = load32 pkt (u32 (12 + 4 * idx)).
Proof.
  unfold tcpkt_getfloat. f_equal.
  unfold ptr_add, size_mul, sizeof_float, TC_HDRSIZE, u32, wrap.
  rewrite Zmult_mod_idemp_l, Zplus_mod_idemp_r. f_equal. lia.
Qed.

Lemma getint_off (pkt : tcpacket_t) idx :
  Forall is_byte pkt ->
  tcpkt_getint pkt idx =
  signed32 <$> load32 pkt (u32 (12 + 4 * tc_fparams pkt + 4 * idx)).
Proof.
  intros Hb. unfold tcpkt_getint. rewrite float_end_eq by done. do 2 f_equal.
  unfold ptr_add, size_mul, sizeof_int32_t, u32, wrap.
  rewrite Zmult_mod_idemp_l, Zplus_mod_idemp_r. f_equal. lia.
Qed.

Lemma getfloat_agree (pkt pkt' : tcpacket_t) idx :
  0 <= idx ->
  (forall j : nat, 12 + 4 * idx <= Z.of_nat j < 12 + 4 * idx + 4 ->
                   pkt' !! j = pkt !! j) ->
  12 + 4 * idx + 4 <= 128 ->
  tcpkt_getfloat pkt' idx = tcpkt_getfloat pkt idx.
Proof.
  intros Hi Hag Hr. rewrite !getfloat_off.
  rewrite u32_small by (change (2 ^ 32) with 4294967296; lia).
  apply load32_agree, Hag.
Qed.

Lemma getint_agree (pkt pkt' : tcpacket_t) idx :
  Forall is_byte pkt -> Forall is_byte pkt' ->
  0 <= idx -> tc_fparams pkt' = tc_fparams pkt ->
  12 + 4 * tc_fparams pkt + 4 * idx + 4 <= 128 ->
  (forall j : nat,
      12 + 4 * tc_fparams pkt + 4 * idx <= Z.of_nat j
        < 12 + 4 * tc_fparams pkt + 4 * idx + 4 ->
      pkt' !! j = pkt !! j) ->
  tcpkt_getint pkt' idx = tcpkt_getint pkt idx.
Proof.
  intros Hb Hb' Hi Hf Hr Hag. rewrite !getint_off, Hf by done.
  pose proof (byte_at_is_byte pkt 9 Hb) as H9.
  unfold is_byte in H9. fold (tc_fparams pkt) in H9.
  rewrite u32_small by (change (2 ^ 32) with 4294967296; lia).
  f_equal. apply load32_agree, Hag.
Qed.

Lemma slice_agree (pkt pkt' : tcpacket_t) (off n : nat) :
  (forall j : nat, (off <= j < off + n)%nat -> pkt' !! j = pkt !! j) ->
  take n (drop off pkt') = take n (drop off pkt).
Proof.
  intros Hag. apply list_eq. intros i.
  destruct (decide (i < n)%nat) as [Hi|Hi].
  - rewrite !lookup_take_lt, !lookup_drop by lia. apply Hag. lia.
  - rewrite !lookup_take_ge by lia. reflexivity.
Qed.

(** ** What the builders write and what they leave

    Header fields are functions of the bytes they cover. *)
Lemma tc_seal_agree (pkt pkt' : tcpacket_t) :
  (forall j : nat, (j < 4)%nat -> pkt' !! j = pkt !! j) -> tc_seal pkt' = tc_seal pkt.
Proof.
  intros Hag. unfold tc_seal. f_equal.
  apply (slice_agree pkt pkt' 0 4). intros j Hj. apply Hag. lia.
Qed.

Lemma tc_crc_agree (pkt pkt' : tcpacket_t) :
  (forall j : nat, (4 <= j < 6)%nat -> pkt' !! j = pkt !! j) -> tc_crc pkt' = tc_crc pkt.
Proof.
  intros Hag. unfold tc_crc. f_equal.
  apply (slice_agree pkt pkt' 4 2). intros j Hj. apply Hag. lia.
Qed.

(** What the three builders do to a well-formed packet whose slot lies in
    the buffer: the packet that results, its count, the bytes it leaves
    alone and the bytes it wrote. *)
Lemma tcpkt_addfloat_effect (pkt : tcpacket_t) v :
  wf_packet pkt -> tc_fparams pkt <= 28 ->
  exists pkt' : tcpacket_t,
    tcpkt_addfloat pkt v = Some pkt' /\ wf_packet pkt' /\
    tc_fparams pkt' = tc_fparams pkt + 1 /\
    (forall j : nat,
        j <> 9%nat ->
        ~ (12 + 4 * tc_fparams pkt <= Z.of_nat j < 12 + 4 * tc_fparams pkt + 4) ->
        pkt' !! j = pkt !! j) /\
    load32 pkt' (12 + 4 * tc_fparams pkt) = Some (u32 v).
Proof.
  intros Hwf Hn. destruct (Hwf) as [_ Hb]. pose proof (wf_length pkt Hwf) as Hl.
  pose proof (byte_at_is_byte pkt 9 Hb) as H9.
  unfold is_byte in H9. fold (tc_fparams pkt) in H9.
  eexists. split; [apply tcpkt_addfloat_eq; done|].
  set (off := Z.to_nat (12 + 4 * tc_fparams pkt)).
  pose proof (length_le32 v) as Hlv.
  split; [|split; [|split]].
  - split.
    + rewrite update_length. exact Hl.
    + apply update_is_byte; [done|unfold is_byte; lia|apply le32_is_byte].
  - apply byte_at_lookup, update_count. lia.
  - intros j Hj Hs. apply update_frame; [done|]. rewrite Hlv. subst off. lia.
  - rewrite load32_Some by lia. fold off. rewrite <- Hlv at 1.
    rewrite update_slot by (rewrite ?Hlv; subst off; lia).
    f_equal. apply le32_roundtrip.
Qed.

Lemma tcpkt_addint_effect (pkt : tcpacket_t) v :
  wf_packet pkt -> 12 + 4 * tc_fparams pkt + 4 * tc_iparams pkt + 4 <= 128 ->
  exists pkt' : tcpacket_t,
    tcpkt_addint pkt v = Some pkt' /\ wf_packet pkt' /\
    tc_iparams pkt' = tc_iparams pkt + 1 /\
    (forall j : nat,
        j <> 10%nat ->
        ~ (int_end pkt <= Z.of_nat j < int_end pkt + 4) ->
        pkt' !! j = pkt !! j) /\
    load32 pkt' (int_end pkt) = Some (u32 v).
Proof.
  intros Hwf Hn. destruct (Hwf) as [_ Hb]. pose proof (wf_length pkt Hwf) as Hl. rewrite (int_end_eq pkt Hb).
  pose proof (byte_at_is_byte pkt 9 Hb) as H9.
  pose proof (byte_at_is_byte pkt 10 Hb) as H10.
  unfold is_byte in H9, H10. fold (tc_fparams pkt) in H9. fold (tc_iparams pkt) in H10.
  eexists. split; [apply tcpkt_addint_eq; done|].
  set (off := Z.to_nat (12 + 4 * tc_fparams pkt + 4 * tc_iparams pkt)).
  pose proof (length_le32 v) as Hlv.
  split; [|split; [|split]].
  - split.
    + rewrite update_length. exact Hl.
    + apply update_is_byte; [done|unfold is_byte; lia|apply le32_is_byte].
  - apply byte_at_lookup, update_count. lia.
  - intros j Hj Hs. apply update_frame; [done|]. rewrite Hlv. subst off. lia.
  - rewrite load32_Some by lia. fold off. rewrite <- Hlv at 1.
    rewrite update_slot by (rewrite ?Hlv; subst off; lia).
    f_equal. apply le32_roundtrip.
Qed.

Lemma c_str_terminated s : Forall (fun c => c <> 0) s -> c_str (s ++ [0]) = Some s.
Proof.
  induction 1 as [|c s Hc _ IH]; [reflexivity|].
  cbn [app c_str]. rewrite (proj2 (Z.eqb_neq c 0) Hc), IH. reflexivity.
Qed.

Lemma c_str_app_terminated s rest :
  Forall (fun c => c <> 0) s -> c_str (s ++ 0 :: rest) = Some s.
Proof.
  induction 1 as [|c s Hc _ IH]; [reflexivity|].
  cbn [app c_str]. rewrite (proj2 (Z.eqb_neq c 0) Hc), IH. reflexivity.
Qed.

Lemma c_str_nonzero str s : c_str str = Some s -> Forall (fun c => c <> 0) s.
Proof.
  revert s. induction str as [|c str IH]; intros s; cbn [c_str]; [done|].
  destruct (Z.eqb_spec c 0) as [->|Hc].
  - intros [= <-]. constructor.
  - destruct (c_str str) as [s'|]; [|done]. intros [= <-].
    constructor; [done|]. apply IH. reflexivity.
Qed.

Lemma tcpkt_addstring_effect (pkt : tcpacket_t) str s :
  wf_packet pkt -> c_str str = Some s -> Forall is_byte s ->
  int_end pkt + Z.of_nat (length s) + 1 <= 128 ->
  exists pkt' : tcpacket_t,
    tcpkt_addstring pkt str = Some pkt' /\ wf_packet pkt' /\
    tc_sparams pkt' = Z.of_nat (length s) + 1 /\
    (forall j : nat,
        j <> 11%nat ->
        ~ (int_end pkt <= Z.of_nat j < int_end pkt + Z.of_nat (length s) + 1) ->
        pkt' !! j = pkt !! j) /\
    c_str_at pkt' (int_end pkt) = Some s.
Proof.
  intros Hwf Hs Hsb Hn. destruct (Hwf) as [_ Hb]. pose proof (wf_length pkt Hwf) as Hl. revert Hn.
  rewrite (int_end_eq pkt Hb). intros Hn.
  pose proof (byte_at_is_byte pkt 9 Hb) as H9.
  pose proof (byte_at_is_byte pkt 10 Hb) as H10.
  unfold is_byte in H9, H10. fold (tc_fparams pkt) in H9. fold (tc_iparams pkt) in H10.
  eexists. split; [apply (tcpkt_addstring_eq pkt str s); done || lia|].
  set (off := Z.to_nat (12 + 4 * tc_fparams pkt + 4 * tc_iparams pkt)).
  assert (Hls : length (s ++ [0]) = S (length s)) by (rewrite length_app; simpl; lia).
  split; [|split; [|split]].
  - split.
    + rewrite update_length. exact Hl.
    + apply update_is_byte; [done|unfold is_byte; lia|].
      apply Forall_app; split; [done|]. repeat constructor; lia.
  - apply byte_at_lookup, update_count. lia.
  - intros j Hj Hsl. apply update_frame; [done|]. rewrite Hls. subst off. lia.
  - unfold c_str_at. rewrite in_packet_true by lia. fold off.
    match goal with |- c_str (drop off ?p) = _ => set (pkt' := p) end.
    assert (Hsl : take (length (s ++ [0])) (drop off pkt') = s ++ [0])
      by (apply update_slot; rewrite ?Hls; subst off; lia).
    rewrite <- (take_drop (length (s ++ [0])) (drop off pkt')), Hsl.
    rewrite <- app_assoc. apply c_str_app_terminated, (c_str_nonzero str), Hs.
Qed.

(** ** Initialisation and size *)

(** Closed decidable facts about sample packets, by evaluation. *)
Ltac by_evaluation := refine (bool_decide_unpack _ _); vm_compute; exact I.

(** How the sample packets come about. *)
Lemma samples_built :
  tcpkt_addint (tcpkt_init zero_buf) 7 = Some pkt_with_int /\
  add_all tcpkt_addint (replicate 29 7) (tcpkt_init zero_buf) = Some pkt_full_ints /\
  add_all tcpkt_addfloat (replicate 29 0x3F800000) (tcpkt_init zero_buf)
    = Some pkt_full_floats /\
  tcpkt_addstring (tcpkt_init zero_buf) [65; 0] = Some pkt_with_string.
Proof. repeat split; vm_compute; reflexivity. Qed.

Lemma tcpkt_init_full (buf : tcpacket_t) :
  length buf = 128%nat -> tcpkt_init buf = tcpkt_init zero_buf.
Proof.
  intros Hl. unfold tcpkt_init, memset. rewrite !drop_ge; [reflexivity| |].
  - unfold zero_buf. rewrite length_replicate. unfold TC_MAXLEN. lia.
  - rewrite Hl. unfold TC_MAXLEN. lia.
Qed.

Lemma wf_init (buf : tcpacket_t) : length buf = 128%nat -> wf_packet (tcpkt_init buf).
Proof. intros Hl. rewrite tcpkt_init_full by done. by_evaluation. Qed.

(** C7: after [tcpkt_init], whatever the buffer held, the first four bytes are
    0xA1, 0x55, 0xBB, 0xA2 (the little-endian word 0xA2BB55A1) and the crc
    field, the sts byte and the three counts are 0.  The bytes are there to be
    read: the packet has its 128 bytes, the twelve header bytes are the seal
    followed by eight zeros, and the first 128 bytes are the seal and 124
    zeros. *)
Theorem tcpkt_init_header (buf : tcpacket_t) :
  take 4 (tcpkt_init buf) = [0xA1; 0x55; 0xBB; 0xA2] /\
  tc_seal (tcpkt_init buf) = 0xA2BB55A1 /\
  tc_crc (tcpkt_init buf) = 0 /\
  tc_sts (tcpkt_init buf) = 0 /\
  tc_fparams (tcpkt_init buf) = 0 /\
  tc_iparams (tcpkt_init buf) = 0 /\
  tc_sparams (tcpkt_init buf) = 0 /\
  (128 <= length (tcpkt_init buf))%nat /\
  take 12 (tcpkt_init buf) = [0xA1; 0x55; 0xBB; 0xA2; 0; 0; 0; 0; 0; 0; 0; 0] /\
  take 128 (tcpkt_init buf) = [0xA1; 0x55; 0xBB; 0xA2] ++ replicate 124 0.
Proof.
  assert (Hinit : tcpkt_init buf =
                  [0xA1; 0x55; 0xBB; 0xA2] ++ replicate 124 0 ++ drop 128 buf).
  { unfold tcpkt_init, memset. vm_compute. reflexivity. }
  rewrite Hinit.
  split; [reflexivity|]. split; [reflexivity|]. split; [reflexivity|].
  split; [reflexivity|]. split; [reflexivity|]. split; [reflexivity|].
  split; [reflexivity|]. split; [|split].
  - rewrite !length_app, length_replicate. cbn [length]. lia.
  - reflexivity.
  - vm_compute. reflexivity.
Qed.

(** C8: the size operation returns exactly 12 + 4·nfloat + 4·nint + nstr. *)
Theorem tcpkt_size_formula (pkt : tcpacket_t) :
  wf_packet pkt ->
  tcpkt_size pkt =
  12 + 4 * tc_fparams pkt + 4 * tc_iparams pkt + tc_sparams pkt.
Proof. intros [_ Hb]. apply tcpkt_size_eq, Hb. Qed.

Lemma tcpkt_size_formula_witness :
  wf_packet pkt_full_ints /\ tcpkt_size pkt_full_ints = 12 + 4 * 0 + 4 * 29 + 0.
Proof.
  split; [by_evaluation|].
  apply (tcpkt_size_formula pkt_full_ints). by_evaluation.
Defined.

Lemma unchanged_outside_header lo hi c (pkt pkt' : tcpacket_t) :
  unchanged_outside lo hi c pkt pkt' -> 12 <= lo -> (9 <= c)%nat ->
  header_kept pkt pkt'.
Proof.
  intros [_ Hfr] Hlo Hc. unfold header_kept, tc_cmd, tc_seq, tc_sts.
  split; [|split; [|split; [|split]]].
  - apply tc_seal_agree. intros j Hj. apply Hfr; lia.
  - apply tc_crc_agree. intros j Hj. apply Hfr; lia.
  - apply byte_at_agree, Hfr; lia.
  - apply byte_at_agree, Hfr; lia.
  - apply byte_at_agree, Hfr; lia.
Qed.

Lemma unchanged_outside_count lo hi c (pkt pkt' : tcpacket_t) (k : nat) :
  unchanged_outside lo hi c pkt pkt' -> 12 <= lo -> (k < 12)%nat -> k <> c ->
  byte_at pkt' k = byte_at pkt k.
Proof. intros [_ Hfr] Hlo Hk Hc. apply byte_at_agree, Hfr; lia. Qed.

Lemma unchanged_outside_getfloat lo hi c (pkt pkt' : tcpacket_t) i :
  unchanged_outside lo hi c pkt pkt' -> (c < 12)%nat ->
  0 <= i -> 12 + 4 * i + 4 <= lo -> lo <= 128 ->
  tcpkt_getfloat pkt' i = tcpkt_getfloat pkt i.
Proof.
  intros [_ Hfr] Hlo Hi Hs Hm. apply getfloat_agree; [done| |lia].
  intros j Hj. apply Hfr; lia.
Qed.

Lemma unchanged_outside_getint lo hi c (pkt pkt' : tcpacket_t) i :
  unchanged_outside lo hi c pkt pkt' -> wf_packet pkt -> wf_packet pkt' ->
  12 <= lo -> c <> 9%nat -> (c < 12)%nat ->
  0 <= i -> 12 + 4 * tc_fparams pkt + 4 * i + 4 <= lo -> lo <= 128 ->
  tcpkt_getint pkt' i = tcpkt_getint pkt i.
Proof.
  intros Hun [_ Hb] [_ Hb'] Hlo Hc Hc' Hi Hs Hm.
  pose proof (byte_at_is_byte pkt 9 Hb) as H9.
  unfold is_byte in H9. fold (tc_fparams pkt) in H9.
  apply getint_agree; try done; try lia.
  - apply (unchanged_outside_count lo hi c); [done|lia|lia|lia].
  - destruct Hun as [_ Hfr]. intros j Hj. apply Hfr; lia.
Qed.

Section posts.
Variable pkt : tcpacket_t.
Hypothesis Hwf : wf_packet pkt.

Let Hb : Forall is_byte pkt := proj2 Hwf.

Lemma counts_range :
  0 <= tc_fparams pkt < 256 /\ 0 <= tc_iparams pkt < 256 /\
  0 <= tc_sparams pkt < 256.
Proof.
  pose proof (byte_at_is_byte pkt 9 Hb).
  pose proof (byte_at_is_byte pkt 10 Hb).
  pose proof (byte_at_is_byte pkt 11 Hb). done.
Qed.

Lemma tcpkt_addfloat_post v :
  tc_fparams pkt <= 28 ->
  exists pkt' : tcpacket_t,
    tcpkt_addfloat pkt v = Some pkt' /\ wf_packet pkt' /\ addfloat_post pkt v pkt'.
Proof.
  intros Hn. destruct counts_range as (H9 & H10 & H11).
  destruct (tcpkt_addfloat_effect pkt v Hwf Hn) as (pkt' & He & Hwf' & Hc & Hfr & Hld).
  assert (Hun : unchanged_outside (12 + 4 * tc_fparams pkt)
                  (12 + 4 * tc_fparams pkt + 4) 9 pkt pkt').
  { split; [|exact Hfr]. rewrite (wf_length pkt), (wf_length pkt'); done. }
  exists pkt'. refine (conj He (conj Hwf' _)).
  refine (conj Hun (conj Hc (conj Hld (conj _ (conj _ (conj _ _)))))).
  - apply (unchanged_outside_header _ _ _ _ _ Hun); lia.
  - apply (unchanged_outside_count _ _ _ _ _ 10%nat Hun); lia.
  - apply (unchanged_outside_count _ _ _ _ _ 11%nat Hun); lia.
  - intros i Hi. apply (unchanged_outside_getfloat _ _ _ _ _ _ Hun); lia.
Qed.

Lemma tcpkt_addint_post v :
  12 + 4 * tc_fparams pkt + 4 * tc_iparams pkt + 4 <= 128 ->
  exists pkt' : tcpacket_t,
    tcpkt_addint pkt v = Some pkt' /\ wf_packet pkt' /\ addint_post pkt v pkt'.
Proof.
  intros Hn. destruct counts_range as (H9 & H10 & H11).
  destruct (tcpkt_addint_effect pkt v Hwf Hn) as (pkt' & He & Hwf' & Hc & Hfr & Hld).
  rewrite (int_end_eq pkt Hb) in Hfr, Hld.
  assert (Hun : unchanged_outside (12 + 4 * tc_fparams pkt + 4 * tc_iparams pkt)
                  (12 + 4 * tc_fparams pkt + 4 * tc_iparams pkt + 4) 10 pkt pkt').
  { split; [|exact Hfr]. rewrite (wf_length pkt), (wf_length pkt'); done. }
  exists pkt'. refine (conj He (conj Hwf' _)).
  refine (conj Hun (conj Hc (conj Hld (conj _ (conj _ (conj _ (conj _ _))))))).
  - apply (unchanged_outside_header _ _ _ _ _ Hun); lia.
  - apply (unchanged_outside_count _ _ _ _ _ 9%nat Hun); lia.
  - apply (unchanged_outside_count _ _ _ _ _ 11%nat Hun); lia.
  - intros i Hi. apply (unchanged_outside_getfloat _ _ _ _ _ _ Hun); lia.
  - intros i Hi. apply (unchanged_outside_getint _ _ _ _ _ _ Hun); try done; lia.
Qed.

Lemma tcpkt_addstring_post str s :
  c_str str = Some s -> Forall is_byte s ->
  12 + 4 * tc_fparams pkt + 4 * tc_iparams pkt + Z.of_nat (length s) + 1 <= 128 ->
  exists pkt' : tcpacket_t,
    tcpkt_addstring pkt str = Some pkt' /\ wf_packet pkt' /\
    addstring_post pkt s pkt'.
Proof.
  intros Hs Hsb Hn. destruct counts_range as (H9 & H10 & H11).
  destruct (tcpkt_addstring_effect pkt str s Hwf Hs Hsb)
    as (pkt' & He & Hwf' & Hc & Hfr & Hld);
    [rewrite (int_end_eq pkt Hb); lia|].
  rewrite (int_end_eq pkt Hb) in Hfr, Hld.
  assert (Hun : unchanged_outside
                  (12 + 4 * tc_fparams pkt + 4 * tc_iparams pkt)
                  (12 + 4 * tc_fparams pkt + 4 * tc_iparams pkt
                   + Z.of_nat (length s) + 1) 11 pkt pkt').
  { split; [|exact Hfr]. rewrite (wf_length pkt), (wf_length pkt'); done. }
  assert (Hf : tc_fparams pkt' = tc_fparams pkt)
    by (apply (unchanged_outside_count _ _ _ _ _ 9%nat Hun); lia).
  assert (Hi : tc_iparams pkt' = tc_iparams pkt)
    by (apply (unchanged_outside_count _ _ _ _ _ 10%nat Hun); lia).
  exists pkt'. refine (conj He (conj Hwf' _)).
  refine (conj Hun (conj Hc (conj _ (conj _ (conj Hf (conj Hi (conj _ _))))))).
  - unfold tcpkt_getstring. rewrite (int_end_eq pkt') by apply Hwf'.
    rewrite Hf, Hi. exact Hld.
  - apply (unchanged_outside_header _ _ _ _ _ Hun); lia.
  - intros i Hi'. apply (unchanged_outside_getfloat _ _ _ _ _ _ Hun); lia.
  - intros i Hi'. apply (unchanged_outside_getint _ _ _ _ _ _ Hun); try done; lia.
Qed.
End posts.

(** ** Frame of the appends *)

(** C10 (as amended): in every packet state where the resulting size is at
    most 128, [tcpkt_addfloat] changes only the 4 bytes of its slot at
    offset 12 + 4·nfloat and the nfloat count, which grows by exactly 1: the
    seal, crc, cmd, seq, sts, nint and nstr fields, every other byte and all
    previously appended floats are unchanged; [tcpkt_addint] likewise changes
    only its slot at offset 12 + 4·nfloat + 4·nint and the nint count, and
    leaves all previously appended floats and ints unchanged; the size bound
    of an int, 12 + 4·nfloat + 4·(nint+1) + nstr <= 128, is the same number.
    Ints or a string that were appended before a float (or a string before an
    int) start at the slot's offset and are not preserved. *)
Theorem add_frame (pkt : tcpacket_t) (v : Z) :
  wf_packet pkt ->
  12 + 4 * (tc_fparams pkt + 1) + 4 * tc_iparams pkt + tc_sparams pkt <= 128 ->
  (exists pkt' : tcpacket_t,
      tcpkt_addfloat pkt v = Some pkt' /\ addfloat_post pkt v pkt') /\
  (exists pkt' : tcpacket_t,
      tcpkt_addint pkt v = Some pkt' /\ addint_post pkt v pkt').
Proof.
  intros Hwf Hsz. destruct (counts_range pkt Hwf) as (H9 & H10 & H11). split.
  - destruct (tcpkt_addfloat_post pkt Hwf v) as (pkt' & He & _ & Hp); [lia|].
    exists pkt'. done.
  - destruct (tcpkt_addint_post pkt Hwf v) as (pkt' & He & _ & Hp); [lia|].
    exists pkt'. done.
Qed.

Lemma add_frame_witness :
  wf_packet pkt_with_int /\
  12 + 4 * (tc_fparams pkt_with_int + 1) + 4 * tc_iparams pkt_with_int
    + tc_sparams pkt_with_int <= 128 /\
  (exists pkt' : tcpacket_t,
      tcpkt_addfloat pkt_with_int 5 = Some pkt' /\ addfloat_post pkt_with_int 5 pkt') /\
  (exists pkt' : tcpacket_t,
      tcpkt_addint pkt_with_int 5 = Some pkt' /\ addint_post pkt_with_int 5 pkt').
Proof.
  split; [by_evaluation|]. split; [vm_compute; discriminate|].
  apply (add_frame pkt_with_int 5); [by_evaluation|vm_compute; discriminate].
Defined.

(** C10, the claim as stated, fails: after [tcpkt_init] and
    [tcpkt_addint(pkt, 7)] the packet has size 16, so a float still fits,
    and int 0 reads 7; [tcpkt_addfloat(pkt, 1.0f)] stores at offset 12, over
    that int, and int 0 then reads 0. *)
Lemma add_frame_counterexample :
  tcpkt_addint (tcpkt_init zero_buf) 7 = Some pkt_with_int /\
  wf_packet pkt_with_int /\
  12 + 4 * (tc_fparams pkt_with_int + 1) + 4 * tc_iparams pkt_with_int
    + tc_sparams pkt_with_int <= 128 /\
  tc_iparams pkt_with_int = 1 /\
  tcpkt_getint pkt_with_int 0 = Some 7 /\
  (pkt' ← tcpkt_addfloat pkt_with_int 0x3F800000; tcpkt_getint pkt' 0) = Some 0.
Proof.
  split; [vm_compute; reflexivity|]. split; [by_evaluation|].
  split; [vm_compute; discriminate|]. repeat split; vm_compute; reflexivity.
Qed.

(** ** No size check *)

(** C3 (as amended): [tcpkt_addfloat] checks no size and reports no
    ERR_VALUE.  In every packet state with nfloat <= 28, whatever the total
    size becomes, it stores the value at offset 12 + 4·nfloat, increments
    nfloat and so grows the size by 4.  With nfloat >= 29, as for a 30th
    float after init, the store would lie outside the 128-byte buffer: the
    call has no defined result and yields no packet. *)
Theorem add_float_unchecked (pkt : tcpacket_t) (v : Z) :
  wf_packet pkt ->
  (tc_fparams pkt <= 28 ->
   exists pkt' : tcpacket_t,
     tcpkt_addfloat pkt v = Some pkt' /\ addfloat_post pkt v pkt' /\
     tcpkt_size pkt' = tcpkt_size pkt + 4) /\
  (29 <= tc_fparams pkt -> tcpkt_addfloat pkt v = None).
Proof.
  intros Hwf. split; intros Hn.
  - destruct (tcpkt_addfloat_post pkt Hwf v Hn) as (pkt' & He & Hwf' & Hp).
    exists pkt'. refine (conj He (conj Hp _)).
    destruct Hp as (_ & Hf & _ & _ & Hi & Hs & _).
    rewrite !tcpkt_size_eq by (apply Hwf || apply Hwf'). lia.
  - apply tcpkt_addfloat_None; done.
Qed.

Lemma add_float_unchecked_witness :
  (wf_packet pkt_full_ints /\ tc_fparams pkt_full_ints <= 28 /\
   exists pkt' : tcpacket_t,
     tcpkt_addfloat pkt_full_ints 0x3F800000 = Some pkt' /\
     addfloat_post pkt_full_ints 0x3F800000 pkt' /\
     tcpkt_size pkt' = tcpkt_size pkt_full_ints + 4) /\
  (wf_packet pkt_full_floats /\ 29 <= tc_fparams pkt_full_floats /\
   tcpkt_addfloat pkt_full_floats 0x3F800000 = None).
Proof.
  split.
  - split; [by_evaluation|]. split; [vm_compute; discriminate|].
    apply (add_float_unchecked pkt_full_ints 0x3F800000); [by_evaluation|].
    vm_compute; discriminate.
  - split; [by_evaluation|]. split; [vm_compute; discriminate|].
    apply (add_float_unchecked pkt_full_floats 0x3F800000); [by_evaluation|].
    vm_compute; discriminate.
Defined.

(** C3, the claim as stated, fails: after [tcpkt_init] and 29 calls of
    [tcpkt_addint] the packet is 128 bytes long, so one more float makes
    132; yet [tcpkt_addfloat(pkt, 1.0f)] returns normally with a modified
    packet, nfloat = 1 and size 132. *)
Lemma add_float_unchecked_counterexample :
  add_all tcpkt_addint (replicate 29 7) (tcpkt_init zero_buf) = Some pkt_full_ints /\
  128 < 12 + 4 * (tc_fparams pkt_full_ints + 1) + 4 * tc_iparams pkt_full_ints
          + tc_sparams pkt_full_ints /\
  tcpkt_addfloat pkt_full_ints 0x3F800000 <> None /\
  tcpkt_addfloat pkt_full_ints 0x3F800000 <> Some pkt_full_ints /\
  tc_fparams <$> tcpkt_addfloat pkt_full_ints 0x3F800000 = Some 1 /\
  tcpkt_size <$> tcpkt_addfloat pkt_full_ints 0x3F800000 = Some 132.
Proof.
  split; [vm_compute; reflexivity|]. split; [vm_compute; reflexivity|].
  split; [vm_compute; discriminate|]. split; [vm_compute; discriminate|].
  split; vm_compute; reflexivity.
Qed.

(** ** No order check *)

(** C4 (as amended): no append checks the float, int, string order and
    none reports ERR_ORDER.  [tcpkt_addfloat] after an int or a string,
    [tcpkt_addint] after a string and a second [tcpkt_addstring] all return
    normally whenever the bytes they write lie inside the 128-byte buffer:
    each writes at the offset its counts give (12 + 4·nfloat for a float,
    12 + 4·nfloat + 4·nint for an int or a string) over what was there and
    updates its own count; the packet after a float or an int differs from
    the packet before, and only the written slot and that count differ. *)
Theorem appends_unordered (pkt : tcpacket_t) (v : Z) (str s : list Z) :
  wf_packet pkt ->
  (0 < tc_iparams pkt \/ 0 < tc_sparams pkt ->
   tc_fparams pkt <= 28 ->
   exists pkt' : tcpacket_t,
     tcpkt_addfloat pkt v = Some pkt' /\ pkt' <> pkt /\ addfloat_post pkt v pkt') /\
  (0 < tc_sparams pkt ->
   12 + 4 * tc_fparams pkt + 4 * tc_iparams pkt + 4 <= 128 ->
   exists pkt' : tcpacket_t,
     tcpkt_addint pkt v = Some pkt' /\ pkt' <> pkt /\ addint_post pkt v pkt') /\
  (0 < tc_sparams pkt ->
   c_str str = Some s -> Forall is_byte s ->
   12 + 4 * tc_fparams pkt + 4 * tc_iparams pkt + Z.of_nat (length s) + 1 <= 128 ->
   exists pkt' : tcpacket_t,
     tcpkt_addstring pkt str = Some pkt' /\ addstring_post pkt s pkt').
Proof.
  intros Hwf. split; [|split].
  - intros _ Hn.
    destruct (tcpkt_addfloat_post pkt Hwf v Hn) as (pkt' & He & _ & Hp).
    exists pkt'. refine (conj He (conj _ Hp)).
    destruct Hp as (_ & Hf & _). intros ->. lia.
  - intros _ Hn.
    destruct (tcpkt_addint_post pkt Hwf v Hn) as (pkt' & He & _ & Hp).
    exists pkt'. refine (conj He (conj _ Hp)).
    destruct Hp as (_ & Hf & _). intros ->. lia.
  - intros _ Hs Hsb Hn.
    destruct (tcpkt_addstring_post pkt Hwf str s Hs Hsb Hn) as (pkt' & He & _ & Hp).
    exists pkt'. done.
Qed.

Lemma appends_unordered_witness :
  wf_packet pkt_with_string /\ 0 < tc_sparams pkt_with_string /\
  (exists pkt' : tcpacket_t,
     tcpkt_addfloat pkt_with_string 5 = Some pkt' /\ pkt' <> pkt_with_string /\
     addfloat_post pkt_with_string 5 pkt') /\
  (exists pkt' : tcpacket_t,
     tcpkt_addint pkt_with_string 5 = Some pkt' /\ pkt' <> pkt_with_string /\
     addint_post pkt_with_string 5 pkt') /\
  (exists pkt' : tcpacket_t,
     tcpkt_addstring pkt_with_string [66; 67; 0] = Some pkt' /\
     addstring_post pkt_with_string [66; 67] pkt').
Proof.
  assert (Hwf : wf_packet pkt_with_string) by by_evaluation.
  assert (Hs : 0 < tc_sparams pkt_with_string) by (vm_compute; reflexivity).
  split; [exact Hwf|]. split; [exact Hs|].
  destruct (appends_unordered pkt_with_string 5 [66; 67; 0] [66; 67] Hwf)
    as (Hf & Hi & Hstr).
  split; [|split].
  - apply Hf; [right; exact Hs|vm_compute; discriminate].
  - apply Hi; [exact Hs|vm_compute; discriminate].
  - apply Hstr; [exact Hs|reflexivity| |vm_compute; discriminate].
    repeat constructor; unfold is_byte; lia.
Defined.

(** C4, the claim as stated, fails.  After [tcpkt_init] and
    [tcpkt_addint(pkt, 7)], [tcpkt_addfloat(pkt, 1.0f)] returns normally:
    nfloat becomes 1 and bytes 12..15, which held the int, hold the float.
    After [tcpkt_init] and [tcpkt_addstring(pkt, "A")], [tcpkt_addint(pkt,
    7)] returns normally with nint = 1 and byte 12 overwritten, and
    [tcpkt_addstring(pkt, "BC")] returns normally with nstr = 3. *)
Lemma appends_unordered_counterexample :
  tcpkt_addint (tcpkt_init zero_buf) 7 = Some pkt_with_int /\
  tcpkt_addfloat pkt_with_int 0x3F800000 <> None /\
  tcpkt_addfloat pkt_with_int 0x3F800000 <> Some pkt_with_int /\
  tc_fparams <$> tcpkt_addfloat pkt_with_int 0x3F800000 = Some 1 /\
  load_bytes pkt_with_int 12 4 = Some [7; 0; 0; 0] /\
  (pkt' ← tcpkt_addfloat pkt_with_int 0x3F800000; load_bytes pkt' 12 4)
    = Some [0; 0; 0x80; 0x3F] /\
  tcpkt_addstring (tcpkt_init zero_buf) [65; 0] = Some pkt_with_string /\
  tcpkt_addint pkt_with_string 7 <> None /\
  tcpkt_addint pkt_with_string 7 <> Some pkt_with_string /\
  tc_iparams <$> tcpkt_addint pkt_with_string 7 = Some 1 /\
  tcpkt_addstring pkt_with_string [66; 67; 0] <> None /\
  tcpkt_addstring pkt_with_string [66; 67; 0] <> Some pkt_with_string /\
  tc_sparams <$> tcpkt_addstring pkt_with_string [66; 67; 0] = Some 3.
Proof.
  repeat split; vm_compute; first [reflexivity|discriminate].
Qed.

(** ** No index check *)

(** C6 (as amended): the typed accessors check no index against nfloat or
    nint and report no error.  For every index, inside the valid range or
    not, whose 4-byte slot lies inside the 128-byte buffer, [tcpkt_getfloat]
    returns the little-endian word at offset 12 + 4·i (modulo 2^32) and
    [tcpkt_getint] the signed little-endian word at offset 12 + 4·nfloat +
    4·i (modulo 2^32); when the slot lies outside the buffer the read has no
    defined result. *)
Theorem accessors_unchecked (pkt : tcpacket_t) (idx : Z) :
  wf_packet pkt ->
  (u32 (12 + 4 * idx) + 4 <= 128 ->
   tcpkt_getfloat pkt idx =
   Some (little_endian_to_Z 8
           (take 4 (drop (Z.to_nat (u32 (12 + 4 * idx))) pkt)))) /\
  (128 < u32 (12 + 4 * idx) + 4 -> tcpkt_getfloat pkt idx = None) /\
  (u32 (12 + 4 * tc_fparams pkt + 4 * idx) + 4 <= 128 ->
   tcpkt_getint pkt idx =
   Some (signed32
           (little_endian_to_Z 8
              (take 4 (drop (Z.to_nat (u32 (12 + 4 * tc_fparams pkt + 4 * idx)))
                            pkt))))) /\
  (128 < u32 (12 + 4 * tc_fparams pkt + 4 * idx) + 4 -> tcpkt_getint pkt idx = None).
Proof.
  intros [_ Hb].
  assert (Hpos : forall x, 0 <= u32 x) by (intros x; apply Z.mod_pos_bound; lia).
  rewrite getfloat_off, getint_off by done.
  split; [|split; [|split]]; intros Hn.
  - apply load32_Some; [apply Hpos|exact Hn].
  - apply load32_None, Hn.
  - rewrite load32_Some; [reflexivity|apply Hpos|exact Hn].
  - rewrite load32_None; [reflexivity|exact Hn].
Qed.

Lemma accessors_unchecked_witness :
  wf_packet pkt_with_int /\
  tcpkt_getfloat pkt_with_int (-3) = Some TC_SEAL /\
  tcpkt_getint pkt_with_int 1 = Some 0 /\
  tcpkt_getfloat pkt_with_int 29 = None /\
  tcpkt_getint pkt_with_int 29 = None.
Proof.
  assert (Hwf : wf_packet pkt_with_int) by by_evaluation.
  split; [exact Hwf|].
  destruct (accessors_unchecked pkt_with_int (-3) Hwf) as (Hf & _).
  destruct (accessors_unchecked pkt_with_int 1 Hwf) as (_ & _ & Hi & _).
  destruct (accessors_unchecked pkt_with_int 29 Hwf) as (_ & Hfn & _ & Hin).
  split; [|split; [|split]].
  - rewrite Hf; [reflexivity|vm_compute; discriminate].
  - rewrite Hi; [reflexivity|vm_compute; discriminate].
  - apply Hfn. vm_compute. reflexivity.
  - apply Hin. vm_compute. reflexivity.
Defined.

(** C6, the claim as stated, fails.  After [tcpkt_init], nfloat is 0, yet
    [tcpkt_getfloat(pkt, 0)] returns the zero word at offset 12 and
    [tcpkt_getfloat(pkt, -3)] returns the seal at offset 0.  After one
    [tcpkt_addint(pkt, 7)], nint is 1, yet [tcpkt_getint(pkt, 1)] returns
    the zero word at offset 16 and [tcpkt_getint(pkt, -1)] returns the word
    made of the sts and count bytes at offset 8. *)
Lemma accessors_unchecked_counterexample :
  tc_fparams (tcpkt_init zero_buf) = 0 /\
  tcpkt_getfloat (tcpkt_init zero_buf) 0 = Some 0 /\
  tcpkt_getfloat (tcpkt_init zero_buf) (-3) = Some 0xA2BB55A1 /\
  tc_iparams pkt_with_int = 1 /\
  tcpkt_getint pkt_with_int 1 = Some 0 /\
  tcpkt_getint pkt_with_int (-1) = Some 0x00010000.
Proof. repeat split; vm_compute; reflexivity. Qed.

(** ** Encoding then reading back *)

Lemma unchanged_outside_trans lo mid hi c (p0 p1 p2 : tcpacket_t) :
  unchanged_outside lo mid c p0 p1 -> unchanged_outside mid hi c p1 p2 ->
  lo <= mid <= hi -> unchanged_outside lo hi c p0 p2.
Proof.
  intros [Hl1 H1] [Hl2 H2] Hm. split; [congruence|].
  intros j Hj Hs. rewrite H2, H1; [reflexivity|done|lia|done|lia].
Qed.

Lemma signed32_u32 v : - 2 ^ 31 <= v < 2 ^ 31 -> signed32 (u32 v) = v.
Proof.
  intros Hv. unfold signed32, u32, wrap.
  change (2 ^ 31) with 2147483648 in *. change (2 ^ 32) with 4294967296.
  destruct (Z.ltb_spec (v mod 4294967296) 2147483648) as [Hlt|Hge];
    Z.div_mod_to_equations; lia.
Qed.

Lemma add_all_floats (F : list Z) : forall pkt : tcpacket_t,
  wf_packet pkt -> tc_fparams pkt + Z.of_nat (length F) <= 29 ->
  Forall (fun f => 0 <= f < 2 ^ 32) F ->
  exists pkt' : tcpacket_t,
    add_all tcpkt_addfloat F pkt = Some pkt' /\ wf_packet pkt' /\
    unchanged_outside (12 + 4 * tc_fparams pkt)
                      (12 + 4 * (tc_fparams pkt + Z.of_nat (length F))) 9 pkt pkt' /\
    tc_fparams pkt' = tc_fparams pkt + Z.of_nat (length F) /\
    forall (i : nat) f, F !! i = Some f ->
                        tcpkt_getfloat pkt' (tc_fparams pkt + Z.of_nat i) = Some f.
Proof.
  induction F as [|v F IH]; intros pkt Hwf Hn HF.
  - exists pkt. cbn [add_all length].
    refine (conj eq_refl (conj Hwf (conj (conj eq_refl _) (conj _ _)))).
    + reflexivity.
    + lia.
    + intros i f Hf. rewrite lookup_nil in Hf. discriminate.
  - cbn [length] in Hn. inversion_clear HF as [|? ? Hv HF'].
    destruct (counts_range pkt Hwf) as (H9 & _).
    destruct (tcpkt_addfloat_post pkt Hwf v) as (p1 & He & Hwf1 & Hp); [lia|].
    destruct Hp as (Hun1 & Hc1 & Hld & _).
    destruct (IH p1 Hwf1) as (pkt' & Hall & Hwf' & Hun2 & Hc2 & Hget); [lia|done|].
    rewrite Hc1 in Hun2, Hc2, Hget.
    exists pkt'. cbn [add_all length]. rewrite He. cbn [mbind option_bind].
    refine (conj Hall (conj Hwf' (conj _ (conj _ _)))).
    + replace (12 + 4 * (tc_fparams pkt + Z.of_nat (S (length F))))
        with (12 + 4 * (tc_fparams pkt + 1 + Z.of_nat (length F))) by lia.
      apply (unchanged_outside_trans _ (12 + 4 * (tc_fparams pkt + 1)) _ _ pkt p1);
        [|done|lia].
      replace (12 + 4 * (tc_fparams pkt + 1)) with (12 + 4 * tc_fparams pkt + 4) by lia.
      exact Hun1.
    + lia.
    + intros [|i] f Hf; cbn in Hf.
      * injection Hf as <-.
        rewrite (unchanged_outside_getfloat _ _ _ _ _ _ Hun2) by lia.
        rewrite getfloat_off.
        rewrite u32_small by (change (2 ^ 32) with 4294967296; lia).
        replace (12 + 4 * (tc_fparams pkt + Z.of_nat 0)) with (12 + 4 * tc_fparams pkt)
          by lia.
        rewrite Hld. f_equal. apply u32_small, Hv.
      * replace (tc_fparams pkt + Z.of_nat (S i))
          with (tc_fparams pkt + 1 + Z.of_nat i) by lia.
        apply Hget, Hf.
Qed.

Lemma add_all_ints (I : list Z) : forall pkt : tcpacket_t,
  wf_packet pkt ->
  12 + 4 * tc_fparams pkt + 4 * (tc_iparams pkt + Z.of_nat (length I)) <= 128 ->
  Forall (fun v => - 2 ^ 31 <= v < 2 ^ 31) I ->
  exists pkt' : tcpacket_t,
    add_all tcpkt_addint I pkt = Some pkt' /\ wf_packet pkt' /\
    unchanged_outside
      (12 + 4 * tc_fparams pkt + 4 * tc_iparams pkt)
      (12 + 4 * tc_fparams pkt + 4 * (tc_iparams pkt + Z.of_nat (length I)))
      10 pkt pkt' /\
    tc_iparams pkt' = tc_iparams pkt + Z.of_nat (length I) /\
    forall (i : nat) v, I !! i = Some v ->
                        tcpkt_getint pkt' (tc_iparams pkt + Z.of_nat i) = Some v.
Proof.
  induction I as [|v I IH]; intros pkt Hwf Hn HI.
  - exists pkt. cbn [add_all length].
    refine (conj eq_refl (conj Hwf (conj (conj eq_refl _) (conj _ _)))).
    + reflexivity.
    + lia.
    + intros i f Hf. rewrite lookup_nil in Hf. discriminate.
  - cbn [length] in Hn. inversion_clear HI as [|? ? Hv HI'].
    destruct (counts_range pkt Hwf) as (H9 & H10 & _).
    destruct (tcpkt_addint_post pkt Hwf v) as (p1 & He & Hwf1 & Hp); [lia|].
    destruct Hp as (Hun1 & Hc1 & Hld & _ & Hf1 & _).
    destruct (IH p1 Hwf1) as (pkt' & Hall & Hwf' & Hun2 & Hc2 & Hget);
      [rewrite Hf1, Hc1; lia|done|].
    rewrite Hc1, Hf1 in Hun2. rewrite Hc1 in Hc2, Hget.
    assert (Hf' : tc_fparams pkt' = tc_fparams p1)
      by (apply (unchanged_outside_count _ _ _ _ _ 9%nat Hun2); lia).
    exists pkt'. cbn [add_all length]. rewrite He. cbn [mbind option_bind].
    refine (conj Hall (conj Hwf' (conj _ (conj _ _)))).
    + replace (12 + 4 * tc_fparams pkt + 4 * (tc_iparams pkt + Z.of_nat (S (length I))))
        with (12 + 4 * tc_fparams pkt + 4 * (tc_iparams pkt + 1 + Z.of_nat (length I)))
        by lia.
      apply (unchanged_outside_trans
               _ (12 + 4 * tc_fparams pkt + 4 * (tc_iparams pkt + 1)) _ _ pkt p1);
        [|done|lia].
      replace (12 + 4 * tc_fparams pkt + 4 * (tc_iparams pkt + 1))
        with (12 + 4 * tc_fparams pkt + 4 * tc_iparams pkt + 4) by lia.
      exact Hun1.
    + lia.
    + intros [|i] w Hw; cbn in Hw.
      * injection Hw as <-.
        rewrite (unchanged_outside_getint _ _ _ _ _ _ Hun2) by (done || lia).
        rewrite getint_off by apply Hwf1. rewrite Hf1.
        rewrite u32_small by (change (2 ^ 32) with 4294967296; lia).
        replace (12 + 4 * tc_fparams pkt + 4 * (tc_iparams pkt + Z.of_nat 0))
          with (12 + 4 * tc_fparams pkt + 4 * tc_iparams pkt) by lia.
        rewrite Hld. cbn [fmap option_fmap option_map]. f_equal.
        apply signed32_u32, Hv.
      * replace (tc_iparams pkt + Z.of_nat (S i))
          with (tc_iparams pkt + 1 + Z.of_nat i) by lia.
        apply Hget, Hw.
Qed.

Lemma lor_range n a b :
  0 <= n -> 0 <= a < 2 ^ n -> 0 <= b < 2 ^ n -> 0 <= Z.lor a b < 2 ^ n.
Proof.
  intros Hn Ha Hb. split; [apply Z.lor_nonneg; lia|].
  replace (Z.lor a b) with (Z.lor a b mod 2 ^ n); [apply Z.mod_pos_bound; lia|].
  rewrite <- Z.land_ones by lia.
  apply Z.bits_inj'. intros i Hi.
  rewrite Z.land_spec, Z.lor_spec.
  destruct (Z.ltb_spec i n).
  - rewrite Z.ones_spec_low by lia. apply andb_true_r.
  - assert (Ha' : Z.testbit a i = false).
    { rewrite <- (Z.mod_small a (2 ^ n)) by lia. apply Z.mod_pow2_bits_high; lia. }
    assert (Hb' : Z.testbit b i = false).
    { rewrite <- (Z.mod_small b (2 ^ n)) by lia. apply Z.mod_pow2_bits_high; lia. }
    rewrite Ha', Hb'. reflexivity.
Qed.

Lemma cmd_byte_range code (is_response : bool) :
  0 <= code <= 0x7F ->
  is_byte (Z.lor code (if is_response then 0x80 else 0)).
Proof.
  intros Hc. apply (lor_range 8); [lia|change (2 ^ 8) with 256; lia|].
  destruct is_response; change (2 ^ 8) with 256; lia.
Qed.

(** The packet after init and the three header setters. *)
Lemma header_set (buf : tcpacket_t) c seq sts :
  length buf = 128%nat -> is_byte c -> is_byte seq -> is_byte sts ->
  let pkt := set_status (set_seq (<[6%nat := c]> (tcpkt_init buf)) seq) sts in
  wf_packet pkt /\ tc_cmd pkt = c /\ tc_seq pkt = seq /\ tc_sts pkt = sts /\
  tc_fparams pkt = 0 /\ tc_iparams pkt = 0 /\ tc_sparams pkt = 0.
Proof.
  intros Hl Hc Hseq Hsts pkt. subst pkt. unfold set_status, set_seq.
  split.
  - split.
    + rewrite !length_insert. apply (wf_init buf Hl).
    + do 3 (apply Forall_insert; [|done]). apply (wf_init buf Hl).
  - rewrite (tcpkt_init_full buf Hl). repeat split; vm_compute; reflexivity.
Qed.

(** C2: for floats [F], ints [I] and an optional NUL-free string [S] that
    take at most 116 bytes, the packet built by init, the header setters,
    [tcpkt_addfloat] for each element of [F], [tcpkt_addint] for each element
    of [I] and [tcpkt_addstring] of [S] if present gives back [F !! i] bit
    for bit from [tcpkt_getfloat], [I !! j] from [tcpkt_getint], [S] from
    the pointer of [tcpkt_getstring], and the cmd, seq and sts bytes that
    were set. *)
Theorem build_roundtrip (buf : tcpacket_t) (code : Z) (is_response : bool)
    (seq sts : Z) (F I : list Z) (S : option (list Z)) :
  length buf = 128%nat ->
  0 <= code <= 0x7F -> is_byte seq -> is_byte sts ->
  Forall is_float_bits F -> Forall is_int32 I ->
  (forall s, S = Some s -> Forall is_char s) ->
  tail_size F I S <= 116 ->
  exists pkt : tcpacket_t,
    build buf code is_response seq sts F I S = Some pkt /\
    (forall (i : nat) f, F !! i = Some f -> tcpkt_getfloat pkt (Z.of_nat i) = Some f) /\
    (forall (j : nat) v, I !! j = Some v -> tcpkt_getint pkt (Z.of_nat j) = Some v) /\
    match S with
    | Some s => c_str_at pkt (tcpkt_getstring pkt) = Some s /\
                tc_sparams pkt = Z.of_nat (length s) + 1
    | None => tc_sparams pkt = 0
    end /\
    tc_cmd pkt = Z.lor code (if is_response then 0x80 else 0) /\
    tc_seq pkt = seq /\ tc_sts pkt = sts /\
    tc_fparams pkt = Z.of_nat (length F) /\ tc_iparams pkt = Z.of_nat (length I).
Proof.
  intros Hl Hcode Hseq Hsts HF HI HS Hsz. unfold build, set_cmd.
  replace (127 <? code) with false by (symmetry; apply Z.ltb_ge; lia).
  set (c := Z.lor code (if is_response then 0x80 else 0)).
  destruct (header_set buf c seq sts Hl (cmd_byte_range code is_response Hcode)
              Hseq Hsts) as (Hwf0 & Hc0 & Hq0 & Hs0 & Hf0 & Hi0 & Hn0).
  set (p0 := set_status (set_seq (<[6%nat := c]> (tcpkt_init buf)) seq) sts) in *.
  assert (Hsz' : 4 * Z.of_nat (length F) + 4 * Z.of_nat (length I) <= 116
                 /\ tail_size F I S <= 116).
  { split; [|done]. unfold tail_size in Hsz. destruct S; lia. }
  destruct Hsz' as [Hfi _].
  (* the floats *)
  destruct (add_all_floats F p0 Hwf0) as (p1 & HeF & Hwf1 & Hun1 & Hf1 & HgetF);
    [lia|exact HF|].
  rewrite Hf0 in Hun1, Hf1, HgetF. rewrite Z.add_0_l in Hf1.
  assert (HgetF1 : forall (i : nat) f,
             F !! i = Some f -> tcpkt_getfloat p1 (Z.of_nat i) = Some f).
  { intros i f Hf. rewrite <- (Z.add_0_l (Z.of_nat i)). apply (HgetF i f Hf). }
  clear HgetF.
  assert (Hi1 : tc_iparams p1 = 0)
    by (rewrite <- Hi0; apply (unchanged_outside_count _ _ _ _ _ 10%nat Hun1); lia).
  assert (Hn1 : tc_sparams p1 = 0)
    by (rewrite <- Hn0; apply (unchanged_outside_count _ _ _ _ _ 11%nat Hun1); lia).
  pose proof (unchanged_outside_header _ _ _ _ _ Hun1) as (_ & _ & Hc1 & Hq1 & Hs1);
    [lia|lia|].
  (* the ints *)
  destruct (add_all_ints I p1 Hwf1) as (p2 & HeI & Hwf2 & Hun2 & Hi2 & HgetI);
    [lia|exact HI|].
  rewrite Hf1, Hi1 in Hun2. rewrite Hi1 in Hi2, HgetI. rewrite Z.add_0_l in Hi2.
  assert (HgetI2 : forall (i : nat) v,
             I !! i = Some v -> tcpkt_getint p2 (Z.of_nat i) = Some v).
  { intros i v Hv. rewrite <- (Z.add_0_l (Z.of_nat i)). apply (HgetI i v Hv). }
  clear HgetI.
  assert (Hf2 : tc_fparams p2 = Z.of_nat (length F))
    by (rewrite <- Hf1; apply (unchanged_outside_count _ _ _ _ _ 9%nat Hun2); lia).
  assert (Hn2 : tc_sparams p2 = 0)
    by (rewrite <- Hn1; apply (unchanged_outside_count _ _ _ _ _ 11%nat Hun2); lia).
  pose proof (unchanged_outside_header _ _ _ _ _ Hun2) as (_ & _ & Hc2 & Hq2 & Hs2);
    [lia|lia|].
  assert (HgetF2 : forall (i : nat) f,
             F !! i = Some f -> tcpkt_getfloat p2 (Z.of_nat i) = Some f).
  { intros i f Hf. pose proof (lookup_lt_Some _ _ _ Hf) as Hlt.
    rewrite (unchanged_outside_getfloat _ _ _ _ _ _ Hun2) by lia.
    apply (HgetF1 i f Hf). }
  rewrite HeF. cbn [mbind option_bind]. rewrite HeI. cbn [mbind option_bind].
  destruct S as [s|].
  - (* the string *)
    specialize (HS s eq_refl). unfold tail_size in Hsz.
    assert (Hsb : Forall is_byte s).
    { eapply Forall_impl; [exact HS|]. unfold is_char, is_byte. intros; lia. }
    assert (Hsn : Forall (fun ch => ch <> 0) s).
    { eapply Forall_impl; [exact HS|]. unfold is_char. intros; lia. }
    destruct (tcpkt_addstring_post p2 Hwf2 (s ++ [0]) s (c_str_terminated s Hsn) Hsb)
      as (p3 & HeS & Hwf3 & Hp); [lia|].
    destruct Hp as (Hun3 & Hn3 & Hstr & Hk & Hf3 & Hi3 & HgF & HgI).
    destruct Hk as (_ & _ & Hc3 & Hq3 & Hs3).
    exists p3. split; [exact HeS|].
    split; [|split; [|split; [done|]]].
    + intros i f Hf. pose proof (lookup_lt_Some _ _ _ Hf) as Hlt.
      rewrite HgF by lia. apply (HgetF2 i f Hf).
    + intros j v Hv. pose proof (lookup_lt_Some _ _ _ Hv) as Hlt.
      rewrite HgI by lia. apply (HgetI2 j v Hv).
    + repeat split; congruence.
  - exists p2. split; [reflexivity|].
    split; [exact HgetF2|]. split; [|split; [exact Hn2|]].
    + exact HgetI2.
    + repeat split; congruence.
Qed.

Lemma build_roundtrip_witness :
  exists pkt : tcpacket_t,
    build zero_buf 13 true 3 0 [0x42F60000; 0x80000000; 0x00000001] [-2; 7]
          (Some [118; 101; 108; 0xE9]) = Some pkt /\
    (forall (i : nat) f, [0x42F60000; 0x80000000; 0x00000001] !! i = Some f ->
                         tcpkt_getfloat pkt (Z.of_nat i) = Some f) /\
    (forall (j : nat) v, [-2; 7] !! j = Some v ->
                         tcpkt_getint pkt (Z.of_nat j) = Some v) /\
    (c_str_at pkt (tcpkt_getstring pkt) = Some [118; 101; 108; 0xE9] /\
     tc_sparams pkt = Z.of_nat (length [118; 101; 108; 0xE9]) + 1) /\
    tc_cmd pkt = Z.lor 13 0x80 /\ tc_seq pkt = 3 /\ tc_sts pkt = 0 /\
    tc_fparams pkt = Z.of_nat (length [0x42F60000; 0x80000000; 0x00000001]) /\
    tc_iparams pkt = Z.of_nat (length [-2; 7]).
Proof.
  apply (build_roundtrip zero_buf 13 true 3 0
           [0x42F60000; 0x80000000; 0x00000001] [-2; 7]
           (Some [118; 101; 108; 0xE9])).
  - reflexivity.
  - lia.
  - unfold is_byte; lia.
  - unfold is_byte; lia.
  - repeat constructor; vm_compute; discriminate.
  - repeat constructor; vm_compute; discriminate.
  - intros s [= <-]. repeat constructor.
  - vm_compute; discriminate.
Defined.

(** ** The decoder *)

Lemma crc_view_length (bytes : list Z) :
  0 <= expected_total bytes <= Z.of_nat (length bytes) ->
  Z.of_nat (length (crc_view bytes)) = expected_total bytes.
Proof.
  intros Ht. unfold crc_view. rewrite length_take, !length_insert. lia.
Qed.

Lemma crc_view_is_byte (bytes : list Z) :
  Forall is_byte bytes -> Forall is_byte (crc_view bytes).
Proof.
  intros Hb. unfold crc_view. apply Forall_take.
  do 2 (apply Forall_insert; [|unfold is_byte; lia]). exact Hb.
Qed.

Lemma expected_total_min (bytes : list Z) :
  Forall is_byte bytes -> 12 <= expected_total bytes.
Proof.
  intros Hb. unfold expected_total.
  pose proof (byte_at_is_byte bytes 9 Hb).
  pose proof (byte_at_is_byte bytes 10 Hb).
  pose proof (byte_at_is_byte bytes 11 Hb).
  unfold is_byte in *. lia.
Qed.

(** Once the length gate has passed, the CRC that the decoder compares is
    the described CRC of the zeroed view. *)
Lemma parse_crc (bytes : list Z) :
  Forall is_byte bytes -> gate_length bytes ->
  crc16 (crc_view bytes) (expected_total bytes) =
  Some (crc16_described (crc_view bytes)).
Proof.
  intros Hb [H128 Hlen]. pose proof (expected_total_min bytes Hb) as Hmin.
  rewrite <- (crc_view_length bytes) by lia.
  rewrite <- (app_nil_r (crc_view bytes)) at 1.
  apply crc16_prefix.
  - intros Hnil. pose proof (crc_view_length bytes) as Hl.
    rewrite Hnil in Hl. cbn [length] in Hl. lia.
  - rewrite crc_view_length by lia. lia.
  - apply crc_view_is_byte, Hb.
Qed.

(** The decoder's answer, gate by gate. *)
Lemma parse_cases (bytes : list Z) :
  Forall is_byte bytes ->
  (~ gate_short bytes /\ parse bytes = inl ERR_SHORT) \/
  (gate_short bytes /\ ~ gate_seal bytes /\ parse bytes = inl ERR_SEAL) \/
  (gate_short bytes /\ gate_seal bytes /\ ~ gate_length bytes /\
   parse bytes = inl ERR_LENGTH) \/
  (gate_short bytes /\ gate_seal bytes /\ gate_length bytes /\
   ~ gate_string bytes /\ parse bytes = inl ERR_STRING) \/
  (gate_short bytes /\ gate_seal bytes /\ gate_length bytes /\
   gate_string bytes /\ ~ gate_crc bytes /\ parse bytes = inl ERR_CRC) \/
  (gate_short bytes /\ gate_seal bytes /\ gate_length bytes /\
   gate_string bytes /\ gate_crc bytes /\
   parse bytes = inr {| view_bytes := bytes |}).
Proof.
  intros Hb. unfold parse.
  destruct (Z.ltb_spec (Z.of_nat (length bytes)) 12) as [Hs|Hs].
  { left. unfold gate_short. split; [lia|reflexivity]. }
  assert (G1 : gate_short bytes) by exact Hs.
  right. destruct (decide (take 4 bytes = seal_bytes)) as [Hseal|Hseal].
  2:{ left. rewrite bool_decide_eq_false_2 by done. done. }
  rewrite bool_decide_eq_true_2 by done. cbn [negb].
  assert (G2 : gate_seal bytes) by exact Hseal.
  right.
  destruct ((expected_total bytes <=? 128)
            && (expected_total bytes <=? Z.of_nat (length bytes))) eqn:Hlen.
  2:{ left. cbn [negb]. refine (conj G1 (conj G2 (conj _ eq_refl))).
      unfold gate_length. intros [H1 H2].
      apply Z.leb_le in H1, H2. rewrite H1, H2 in Hlen. discriminate. }
  cbn [negb]. right.
  assert (G3 : gate_length bytes).
  { apply andb_prop in Hlen as [H1 H2]. apply Z.leb_le in H1, H2. done. }
  destruct ((0 <? byte_at bytes 11)
            && negb (byte_at bytes (Z.to_nat (expected_total bytes - 1)) =? 0))
    eqn:Hstr.
  { left. refine (conj G1 (conj G2 (conj G3 (conj _ eq_refl)))).
    apply andb_prop in Hstr as [H1 H2]. apply Z.ltb_lt in H1.
    apply negb_true_iff, Z.eqb_neq in H2. unfold gate_string. tauto. }
  right.
  assert (G4 : gate_string bytes).
  { unfold gate_string. intros H1. apply Z.ltb_lt in H1. rewrite H1 in Hstr.
    cbn [andb] in Hstr. apply negb_false_iff, Z.eqb_eq in Hstr. exact Hstr. }
  rewrite (parse_crc bytes Hb G3).
  destruct (decide (crc16_described (crc_view bytes) = stored_crc bytes)) as [Hc|Hc].
  - right. rewrite bool_decide_eq_true_2 by congruence. done.
  - left. rewrite bool_decide_eq_false_2 by congruence. done.
Qed.

(** C5: [parse] checks its gates in order and stops at the first that
    fails: length >= 12 (else ERR_SHORT), the seal (else ERR_SEAL), the
    declared total at most 128 and at most the slice length (else
    ERR_LENGTH), a NUL at index total - 1 when nstr > 0 (else ERR_STRING),
    and the CRC over the first total bytes with positions 4 and 5 zeroed
    equal to the stored little-endian crc field (else ERR_CRC); only when
    all five pass does it return a view, and the view holds the input bytes
    as they were. *)
Theorem parse_gates (bytes : list Z) :
  Forall is_byte bytes ->
  (parse bytes = inl ERR_SHORT <-> ~ gate_short bytes) /\
  (parse bytes = inl ERR_SEAL <-> gate_short bytes /\ ~ gate_seal bytes) /\
  (parse bytes = inl ERR_LENGTH <->
     gate_short bytes /\ gate_seal bytes /\ ~ gate_length bytes) /\
  (parse bytes = inl ERR_STRING <->
     gate_short bytes /\ gate_seal bytes /\ gate_length bytes /\
     ~ gate_string bytes) /\
  (parse bytes = inl ERR_CRC <->
     gate_short bytes /\ gate_seal bytes /\ gate_length bytes /\
     gate_string bytes /\ ~ gate_crc bytes) /\
  (forall v, parse bytes = inr v <->
     gate_short bytes /\ gate_seal bytes /\ gate_length bytes /\
     gate_string bytes /\ gate_crc bytes /\ view_bytes v = bytes) /\
  (forall e, parse bytes = inl e ->
     e = ERR_SHORT \/ e = ERR_SEAL \/ e = ERR_LENGTH \/ e = ERR_STRING \/ e = ERR_CRC).
Proof.
  intros Hb.
  destruct (parse_cases bytes Hb)
    as [(G1 & ->)|[(G1 & G2 & ->)|[(G1 & G2 & G3 & ->)|[(G1 & G2 & G3 & G4 & ->)
       |[(G1 & G2 & G3 & G4 & G5 & ->)|(G1 & G2 & G3 & G4 & G5 & ->)]]]]].
  1-5: (split; [|split; [|split; [|split; [|split; [|split]]]]];
        [split; [try (intros [=]); tauto | tauto] ..
        | intros v; split; [intros [=] | tauto]
        | intros e [= <-]; tauto ]).
  split; [|split; [|split; [|split; [|split; [|split]]]]].
  1-5: split; [intros [=] | tauto].
  - intros v. split.
    + intros [= <-]. done.
    + intros (_ & _ & _ & _ & _ & Hv). destruct v as [vb]. cbn in Hv.
      subst vb. reflexivity.
  - intros e [=].
Qed.

Lemma parse_gates_witness :
  Forall is_byte ping_bytes /\
  parse ping_bytes = inr {| view_bytes := ping_bytes |} /\
  parse (take 11 ping_bytes) = inl ERR_SHORT /\
  parse (<[3%nat := 0xA3]> ping_bytes) = inl ERR_SEAL /\
  parse (<[9%nat := 1]> ping_bytes) = inl ERR_LENGTH /\
  parse (<[11%nat := 1]> ping_bytes ++ [1]) = inl ERR_STRING /\
  parse (<[7%nat := 8]> ping_bytes) = inl ERR_CRC.
Proof.
  split; [by_evaluation|].
  split.
  { destruct (parse_gates ping_bytes ltac:(by_evaluation))
      as (_ & _ & _ & _ & _ & Hok & _).
    apply Hok. unfold gate_short, gate_seal, gate_length, gate_string, gate_crc.
    repeat split; vm_compute; congruence. }
  split.
  { destruct (parse_gates (take 11 ping_bytes) ltac:(by_evaluation)) as (H & _).
    apply H. unfold gate_short. vm_compute. tauto. }
  split.
  { destruct (parse_gates (<[3%nat := 0xA3]> ping_bytes) ltac:(by_evaluation))
      as (_ & H & _).
    apply H. unfold gate_short, gate_seal. split; vm_compute; congruence. }
  split.
  { destruct (parse_gates (<[9%nat := 1]> ping_bytes) ltac:(by_evaluation))
      as (_ & _ & H & _).
    apply H. unfold gate_short, gate_seal, gate_length.
    split; [|split]; vm_compute; try congruence. intros [_ H']. apply H'. reflexivity. }
  split.
  { destruct (parse_gates (<[11%nat := 1]> ping_bytes ++ [1]) ltac:(by_evaluation))
      as (_ & _ & _ & H & _).
    apply H. unfold gate_short, gate_seal, gate_length, gate_string.
    split; [|split; [|split]]; vm_compute; try congruence.
    - split; congruence.
    - intros H'. specialize (H' eq_refl). discriminate. }
  { destruct (parse_gates (<[7%nat := 8]> ping_bytes) ltac:(by_evaluation))
      as (_ & _ & _ & _ & H & _).
    apply H. unfold gate_short, gate_seal, gate_length, gate_string, gate_crc.
    split; [|split; [|split; [|split]]]; vm_compute; try congruence.
    split; congruence. }
Defined.

(** * Further properties of the header *)

(** ** More about the CRC engine *)

Lemma testbit_above n x i : 0 <= x < 2 ^ n -> n <= i -> Z.testbit x i = false.
Proof.
  intros Hx Hi. destruct (Z.ltb_spec n 0).
  - rewrite Z.pow_neg_r in Hx by lia. lia.
  - rewrite <- (Z.mod_small x (2 ^ n)) by lia. apply Z.mod_pow2_bits_high. lia.
Qed.

Lemma shiftr1_range r : 0 <= r < 2 ^ 16 -> 0 <= Z.shiftr r 1 < 2 ^ 15.
Proof.
  intros Hr. rewrite Z.shiftr_div_pow2 by lia. change (2 ^ 1) with 2.
  change (2 ^ 15) with 32768. change (2 ^ 16) with 65536 in Hr.
  split; [apply Z.div_pos; lia|apply Z.div_lt_upper_bound; lia].
Qed.

Lemma shiftr1_odd_inj r1 r2 :
  Z.shiftr r1 1 = Z.shiftr r2 1 -> Z.odd r1 = Z.odd r2 -> r1 = r2.
Proof.
  intros Hs Ho. rewrite <- !Z.div2_spec in Hs.
  rewrite (Z.div2_odd r1), (Z.div2_odd r2), Hs, Ho. reflexivity.
Qed.

Lemma lxor_cancel_r a b p : Z.lxor a p = Z.lxor b p -> a = b.
Proof.
  intros H. apply (f_equal (fun x => Z.lxor x p)) in H.
  rewrite !Z.lxor_assoc, Z.lxor_nilpotent, !Z.lxor_0_r in H. exact H.
Qed.

Lemma lxor_poly_high x : 0 <= x < 2 ^ 15 -> Z.testbit (Z.lxor x 0x8408) 15 = true.
Proof.
  intros Hx. rewrite Z.lxor_spec, (testbit_above 15 x 15) by lia. reflexivity.
Qed.

(** For a given input bit, the bit step is one-to-one on 16-bit registers. *)
Lemma crc_bit_step_inj r1 r2 bit :
  0 <= r1 < 2 ^ 16 -> 0 <= r2 < 2 ^ 16 ->
  crc_bit_step r1 bit = crc_bit_step r2 bit -> r1 = r2.
Proof.
  intros H1 H2. unfold crc_bit_step.
  pose proof (shiftr1_range r1 H1) as S1. pose proof (shiftr1_range r2 H2) as S2.
  destruct (xorb (Z.odd r1) bit) eqn:X1; destruct (xorb (Z.odd r2) bit) eqn:X2; intros He.
  - apply shiftr1_odd_inj; [exact (lxor_cancel_r _ _ _ He)|].
    destruct (Z.odd r1), (Z.odd r2), bit; simpl in *; congruence.
  - exfalso. pose proof (lxor_poly_high _ S1) as Hb. rewrite He in Hb.
    rewrite (testbit_above 15 _ 15) in Hb by lia. discriminate.
  - exfalso. pose proof (lxor_poly_high _ S2) as Hb. rewrite <- He in Hb.
    rewrite (testbit_above 15 _ 15) in Hb by lia. discriminate.
  - apply shiftr1_odd_inj; [exact He|].
    destruct (Z.odd r1), (Z.odd r2), bit; simpl in *; congruence.
Qed.

(** Flipping the input bit changes the outcome of the bit step. *)
Lemma crc_bit_step_flip r bit : crc_bit_step r bit <> crc_bit_step r (negb bit).
Proof.
  unfold crc_bit_step. intros He.
  assert (Hp : Z.lxor (Z.shiftr r 1) 0x8408 = Z.shiftr r 1).
  { destruct (Z.odd r), bit; simpl in He; congruence. }
  apply (f_equal (Z.lxor (Z.shiftr r 1))) in Hp.
  rewrite <- Z.lxor_assoc, Z.lxor_nilpotent, Z.lxor_0_l in Hp. discriminate.
Qed.

Lemma crc_byte_step_bits reg byte :
  crc_byte_step reg byte = fold_left crc_bit_step (byte_bits byte) reg.
Proof.
  unfold crc_byte_step, byte_bits. generalize (seq 0 8). intros l. revert reg.
  induction l as [|k l IH]; intros reg; [reflexivity|]. cbn [map fold_left]. apply IH.
Qed.

Lemma fold_bits_range bits : forall reg,
  0 <= reg < 2 ^ 16 -> 0 <= fold_left crc_bit_step bits reg < 2 ^ 16.
Proof.
  induction bits as [|b bits IH]; intros reg Hr; [exact Hr|].
  cbn [fold_left]. apply IH, crc_bit_step_range, Hr.
Qed.

Lemma fold_bits_inj bits : forall r1 r2,
  0 <= r1 < 2 ^ 16 -> 0 <= r2 < 2 ^ 16 -> r1 <> r2 ->
  fold_left crc_bit_step bits r1 <> fold_left crc_bit_step bits r2.
Proof.
  induction bits as [|b bits IH]; intros r1 r2 H1 H2 Hne; [exact Hne|].
  cbn [fold_left]. apply IH; try apply crc_bit_step_range; try done.
  intros He. apply Hne. exact (crc_bit_step_inj _ _ _ H1 H2 He).
Qed.

Lemma fold_bytes_inj data : forall r1 r2,
  0 <= r1 < 2 ^ 16 -> 0 <= r2 < 2 ^ 16 -> r1 <> r2 ->
  fold_left crc_byte_step data r1 <> fold_left crc_byte_step data r2.
Proof.
  induction data as [|c data IH]; intros r1 r2 H1 H2 Hne; [exact Hne|].
  cbn [fold_left]. apply IH; try apply crc_byte_step_range; try done.
  rewrite !crc_byte_step_bits. apply fold_bits_inj; done.
Qed.

(** The bits of a byte with bit [k] flipped. *)
Lemma byte_bits_flip b (k : nat) :
  (k < 8)%nat ->
  exists l1 x l2,
    byte_bits b = l1 ++ x :: l2 /\
    byte_bits (Z.lxor b (2 ^ Z.of_nat k)) = l1 ++ negb x :: l2.
Proof.
  intros Hk. unfold byte_bits.
  replace 8%nat with (k + S (7 - k))%nat by lia.
  rewrite seq_app, !map_app. cbn [seq map Nat.add].
  exists (map (fun j => Z.testbit b (Z.of_nat j)) (seq 0 k)),
         (Z.testbit b (Z.of_nat k)),
         (map (fun j => Z.testbit b (Z.of_nat j)) (seq (S k) (7 - k))).
  split; [reflexivity|].
  assert (Hbit : forall j : nat,
             Z.testbit (Z.lxor b (2 ^ Z.of_nat k)) (Z.of_nat j)
             = xorb (Z.testbit b (Z.of_nat j)) (Nat.eqb k j)).
  { intros j. rewrite Z.lxor_spec, Z.pow2_bits_eqb by lia. f_equal.
    destruct (Nat.eqb_spec k j) as [->|Hne].
    - apply Z.eqb_refl.
    - apply Z.eqb_neq. lia. }
  f_equal; [|f_equal].
  - apply map_ext_in. intros j Hj. apply in_seq in Hj.
    rewrite Hbit. replace (Nat.eqb k j) with false; [apply xorb_false_r|].
    symmetry. apply Nat.eqb_neq. lia.
  - rewrite Hbit, Nat.eqb_refl. apply xorb_true_r.
  - apply map_ext_in. intros j Hj. apply in_seq in Hj.
    rewrite Hbit. replace (Nat.eqb k j) with false; [apply xorb_false_r|].
    symmetry. apply Nat.eqb_neq. lia.
Qed.

Lemma crc_byte_step_flip reg b (k : nat) :
  0 <= reg < 2 ^ 16 -> (k < 8)%nat ->
  crc_byte_step reg b <> crc_byte_step reg (Z.lxor b (2 ^ Z.of_nat k)).
Proof.
  intros Hr Hk. rewrite !crc_byte_step_bits.
  destruct (byte_bits_flip b k Hk) as (l1 & x & l2 & -> & ->).
  rewrite !fold_left_app. cbn [fold_left].
  apply fold_bits_inj; try (apply crc_bit_step_range, fold_bits_range, Hr).
  apply crc_bit_step_flip.
Qed.

Lemma swap_bytes16_inj x y :
  0 <= x < 2 ^ 16 -> 0 <= y < 2 ^ 16 -> swap_bytes16 x = swap_bytes16 y -> x = y.
Proof.
  unfold swap_bytes16. change (2 ^ 16) with 65536. intros Hx Hy He.
  Z.div_mod_to_equations. lia.
Qed.

Lemma flip_is_byte b (k : nat) : is_byte b -> (k < 8)%nat -> is_byte (Z.lxor b (2 ^ Z.of_nat k)).
Proof.
  intros Hb Hk. apply (lxor_range 8); [lia|exact Hb|].
  split; [apply Z.pow_nonneg; lia|apply Z.pow_lt_mono_r; lia].
Qed.

(** X1: flipping any single bit of any byte of the input changes the
    value [crc16] returns. *)
Theorem crc16_detects_bit_flip (pre post : list Z) (b : Z) (k : nat) :
  Forall is_byte (pre ++ b :: post) ->
  (k < 8)%nat ->
  Z.of_nat (length (pre ++ b :: post)) <= 65535 ->
  exists c c',
    crc16 (pre ++ b :: post) (Z.of_nat (length (pre ++ b :: post))) = Some c /\
    crc16 (pre ++ Z.lxor b (2 ^ Z.of_nat k) :: post)
          (Z.of_nat (length (pre ++ b :: post))) = Some c' /\
    c <> c'.
Proof.
  intros Hb Hk Hlen.
  assert (Hb' : Forall is_byte (pre ++ Z.lxor b (2 ^ Z.of_nat k) :: post)).
  { apply Forall_app in Hb as [Hpre Hpost]. inversion_clear Hpost.
    apply Forall_app. split; [done|]. constructor; [|done].
    apply flip_is_byte; done. }
  assert (Hl' : length (pre ++ Z.lxor b (2 ^ Z.of_nat k) :: post)
                = length (pre ++ b :: post)) by (rewrite !length_app; reflexivity).
  exists (crc16_described (pre ++ b :: post)),
         (crc16_described (pre ++ Z.lxor b (2 ^ Z.of_nat k) :: post)).
  split; [|split].
  - rewrite <- (app_nil_r (pre ++ b :: post)) at 1.
    apply crc16_prefix; [by destruct pre|done|done].
  - rewrite <- Hl'.
    rewrite <- (app_nil_r (pre ++ Z.lxor b (2 ^ Z.of_nat k) :: post)) at 1.
    apply crc16_prefix; [by destruct pre|lia|done].
  - unfold crc16_described, complement16. rewrite !fold_left_app. cbn [fold_left].
    assert (Hr : 0 <= fold_left crc_byte_step pre 0xFFFF < 2 ^ 16)
      by (apply crc_fold_range; change (2 ^ 16) with 65536; lia).
    set (r := fold_left crc_byte_step pre 0xFFFF) in *.
    pose proof (crc_byte_step_flip r b k Hr Hk) as Hne.
    pose proof (crc_byte_step_range r b Hr) as H1.
    pose proof (crc_byte_step_range r (Z.lxor b (2 ^ Z.of_nat k)) Hr) as H2.
    pose proof (fold_bytes_inj post _ _ H1 H2 Hne) as Hne'.
    pose proof (crc_fold_range post _ H1) as R1.
    pose proof (crc_fold_range post _ H2) as R2.
    intros He. apply swap_bytes16_inj in He; change (2 ^ 16) with 65536 in *; lia.
Qed.

Lemma crc16_detects_bit_flip_witness :
  exists c c',
    crc16 ([0xA1; 0x55] ++ 0xBB :: [0xA2; 0])
          (Z.of_nat (length ([0xA1; 0x55] ++ 0xBB :: [0xA2; 0]))) = Some c /\
    crc16 ([0xA1; 0x55] ++ Z.lxor 0xBB (2 ^ Z.of_nat 7) :: [0xA2; 0])
          (Z.of_nat (length ([0xA1; 0x55] ++ 0xBB :: [0xA2; 0]))) = Some c' /\
    c <> c'.
Proof.
  apply (crc16_detects_bit_flip [0xA1; 0x55] [0xA2; 0] 0xBB 7).
  - repeat constructor; vm_compute; discriminate.
  - lia.
  - vm_compute. discriminate.
Defined.

Lemma u16_pred n : 0 < n <= 65535 -> u16 (n - 1) = n - 1.
Proof. intros Hn. apply Z.mod_small. change (2 ^ 16) with 65536. lia. Qed.

(** The loop consumes [length] bytes and no more. *)
Lemma crc16_loop_take data_p : forall n crc,
  0 < n <= 65535 ->
  crc16_loop data_p n crc = crc16_loop (take (Z.to_nat n) data_p) n crc.
Proof.
  induction data_p as [|c data_p IH]; intros n crc Hn.
  - rewrite take_nil. reflexivity.
  - replace (Z.to_nat n) with (S (Z.to_nat (n - 1))) by lia.
    cbn [take crc16_loop]. rewrite u16_pred by done.
    destruct (Z.eqb_spec (n - 1) 0) as [Hz|Hz]; [reflexivity|].
    apply IH. lia.
Qed.

Lemma crc16_loop_enough data_p : forall n crc,
  0 < n <= 65535 -> (Z.to_nat n <= length data_p)%nat ->
  is_Some (crc16_loop data_p n crc).
Proof.
  induction data_p as [|c data_p IH]; intros n crc Hn Hl; cbn [length] in Hl; [lia|].
  cbn [crc16_loop]. rewrite u16_pred by done.
  destruct (Z.eqb_spec (n - 1) 0) as [Hz|Hz]; [eexists; reflexivity|].
  apply IH; lia.
Qed.

Lemma crc16_loop_short data_p : forall n crc,
  0 < n <= 65535 -> (length data_p < Z.to_nat n)%nat ->
  crc16_loop data_p n crc = None.
Proof.
  induction data_p as [|c data_p IH]; intros n crc Hn Hl; [reflexivity|].
  cbn [length] in Hl. cbn [crc16_loop]. rewrite u16_pred by done.
  destruct (Z.eqb_spec (n - 1) 0) as [Hz|Hz]; [lia|].
  apply IH; lia.
Qed.

(** X2: [crc16] reads the first [length] bytes of what [data_p] points to
    and nothing after them: when the buffer holds at least [length] bytes
    the result is a value that depends on those bytes only, and when it
    holds fewer the loop reads past its end. *)
Theorem crc16_reads_length (data_p : list Z) (n : Z) :
  0 < n <= 65535 ->
  ((Z.to_nat n <= length data_p)%nat ->
   is_Some (crc16 data_p n) /\
   crc16 data_p n = crc16 (take (Z.to_nat n) data_p) n) /\
  ((length data_p < Z.to_nat n)%nat -> crc16 data_p n = None).
Proof.
  intros Hn. unfold crc16.
  replace (n =? 0) with false by (symmetry; apply Z.eqb_neq; lia).
  split; intros Hl.
  - rewrite <- (crc16_loop_take data_p n) by done.
    split; [|reflexivity].
    destruct (crc16_loop_enough data_p n 0xffff Hn Hl) as [crc ->].
    eexists; reflexivity.
  - rewrite crc16_loop_short by done. reflexivity.
Qed.

Lemma crc16_reads_length_witness :
  (is_Some (crc16 [1; 2; 3; 4] 3) /\
   crc16 [1; 2; 3; 4] 3 = crc16 (take (Z.to_nat 3) [1; 2; 3; 4]) 3) /\
  crc16 [1; 2] 3 = None.
Proof.
  split.
  - apply (crc16_reads_length [1; 2; 3; 4] 3); [lia|cbn; lia].
  - apply (crc16_reads_length [1; 2] 3); [lia|cbn; lia].
Defined.

Lemma crc16_loop_mask data_p : forall n crc,
  crc16_loop (map (fun c => c mod 256) data_p) n crc = crc16_loop data_p n crc.
Proof.
  induction data_p as [|c data_p IH]; intros n crc; [reflexivity|].
  cbn [map crc16_loop].
  replace (Z.land 255 (c mod 256)) with (Z.land 255 c).
  - destruct (u16 (n - 1) =? 0); [reflexivity|apply IH].
  - change 256 with (2 ^ 8). rewrite <- Z.land_ones by lia.
    rewrite (Z.land_comm c), Z.land_assoc. reflexivity.
Qed.

(** X3: [crc16] sees each character through [0xff & c] only, so the result
    is the same whether the buffer is read as signed or as unsigned
    characters. *)
Theorem crc16_char_sign (data_p : list Z) (n : Z) :
  crc16 (map (fun c => c mod 256) data_p) n = crc16 data_p n.
Proof. unfold crc16. rewrite crc16_loop_mask. reflexivity. Qed.

(** ** More about the packet builders and accessors *)

(** X4: [tcpkt_init] erases whatever the buffer held: the result is the
    seal followed by 124 zero bytes, a well-formed packet of size
    [TC_HDRSIZE]. *)
Theorem tcpkt_init_erases (buf : tcpacket_t) :
  length buf = 128%nat ->
  tcpkt_init buf = seal_bytes ++ replicate 124 0 /\
  wf_packet (tcpkt_init buf) /\
  tcpkt_size (tcpkt_init buf) = TC_HDRSIZE.
Proof.
  intros Hl. rewrite (tcpkt_init_full buf Hl).
  split; [vm_compute; reflexivity|]. split; [by_evaluation|].
  vm_compute. reflexivity.
Qed.

Lemma tcpkt_init_erases_witness :
  tcpkt_init pkt_full_ints = seal_bytes ++ replicate 124 0 /\
  wf_packet (tcpkt_init pkt_full_ints) /\
  tcpkt_size (tcpkt_init pkt_full_ints) = TC_HDRSIZE.
Proof. apply (tcpkt_init_erases pkt_full_ints). reflexivity. Defined.

(** X5: the ints are addressed as a continuation of the float array:
    [tcpkt_getint(pkt, j)] reads the 4 bytes that [tcpkt_getfloat(pkt,
    nfloat + j)] reads, as a signed word. *)
Theorem getint_continues_floats (pkt : tcpacket_t) (j : Z) :
  wf_packet pkt ->
  tcpkt_getint pkt j = signed32 <$> tcpkt_getfloat pkt (tc_fparams pkt + j).
Proof.
  intros [_ Hb]. rewrite getint_off, getfloat_off by done.
  do 3 f_equal. lia.
Qed.

Lemma getint_continues_floats_witness :
  wf_packet pkt_with_int /\
  tcpkt_getint pkt_with_int 0
  = signed32 <$> tcpkt_getfloat pkt_with_int (tc_fparams pkt_with_int + 0).
Proof.
  split; [by_evaluation|]. apply (getint_continues_floats pkt_with_int 0).
  by_evaluation.
Defined.

(** X6: a float appended to a packet that already holds ints takes the
    slot of int 0, and every later int moves down by one: afterwards int [j]
    reads what int [j + 1] read before. *)
Theorem addfloat_shifts_ints (pkt pkt' : tcpacket_t) (v j : Z) :
  wf_packet pkt ->
  tcpkt_addfloat pkt v = Some pkt' ->
  0 <= j -> 12 + 4 * tc_fparams pkt + 4 * (j + 1) + 4 <= 128 ->
  tcpkt_getfloat pkt' (tc_fparams pkt) = Some (u32 v) /\
  tcpkt_getint pkt' j = tcpkt_getint pkt (j + 1).
Proof.
  intros Hwf He Hj Hfit. destruct (counts_range pkt Hwf) as (H9 & _).
  destruct (tcpkt_addfloat_post pkt Hwf v) as (p & He' & Hwf' & Hp); [lia|].
  rewrite He in He'. injection He' as <-.
  destruct Hp as ([_ Hfr] & Hc & Hld & _). split.
  - rewrite getfloat_off, u32_small by (change (2 ^ 32) with 4294967296; lia).
    exact Hld.
  - rewrite !getint_off by (apply Hwf || apply Hwf'). rewrite Hc.
    replace (12 + 4 * (tc_fparams pkt + 1) + 4 * j)
      with (12 + 4 * tc_fparams pkt + 4 * (j + 1)) by lia.
    rewrite u32_small by (change (2 ^ 32) with 4294967296; lia).
    f_equal. apply load32_agree. intros i Hi. apply Hfr; lia.
Qed.

Lemma addfloat_shifts_ints_witness :
  exists pkt' : tcpacket_t,
    tcpkt_addfloat pkt_full_ints 0x3F800000 = Some pkt' /\
    tcpkt_getfloat pkt' (tc_fparams pkt_full_ints) = Some (u32 0x3F800000) /\
    tcpkt_getint pkt' 3 = tcpkt_getint pkt_full_ints (3 + 1).
Proof.
  destruct (tcpkt_addfloat pkt_full_ints 0x3F800000) as [pkt'|] eqn:He;
    [|vm_compute in He; discriminate].
  exists pkt'. split; [reflexivity|].
  apply (addfloat_shifts_ints pkt_full_ints pkt' 0x3F800000 3);
    [by_evaluation|exact He|lia|vm_compute; discriminate].
Defined.

(** ** Any sequence of appends *)

Lemma tcpkt_addfloat_Some_inv (pkt pkt' : tcpacket_t) v :
  wf_packet pkt -> tcpkt_addfloat pkt v = Some pkt' -> tc_fparams pkt <= 28.
Proof.
  intros Hwf He. destruct (Z.le_gt_cases (tc_fparams pkt) 28) as [H|H]; [exact H|].
  rewrite tcpkt_addfloat_None in He by (done || lia). discriminate.
Qed.

Lemma tcpkt_addint_Some_inv (pkt pkt' : tcpacket_t) v :
  wf_packet pkt -> tcpkt_addint pkt v = Some pkt' ->
  12 + 4 * tc_fparams pkt + 4 * tc_iparams pkt + 4 <= 128.
Proof.
  intros [_ Hb] He.
  destruct (Z.le_gt_cases (12 + 4 * tc_fparams pkt + 4 * tc_iparams pkt + 4) 128)
    as [H|H]; [exact H|].
  unfold tcpkt_addint in He. rewrite int_end_eq in He by done.
  rewrite store32_None in He by lia. discriminate.
Qed.

Lemma tcpkt_addstring_Some_inv (pkt pkt' : tcpacket_t) str :
  wf_packet pkt -> tcpkt_addstring pkt str = Some pkt' ->
  exists s, c_str str = Some s /\
            12 + 4 * tc_fparams pkt + 4 * tc_iparams pkt
              + Z.of_nat (length s) + 1 <= 128.
Proof.
  intros [_ Hb] He. unfold tcpkt_addstring in He. rewrite int_end_eq in He by done.
  destruct (c_str str) as [s|]; [|discriminate]. exists s. split; [reflexivity|].
  cbn [mbind option_bind] in He. unfold store_bytes in He.
  rewrite length_app in He. cbn [length] in He.
  destruct (Z.le_gt_cases
              (12 + 4 * tc_fparams pkt + 4 * tc_iparams pkt + Z.of_nat (length s) + 1)
              128) as [H|H]; [exact H|].
  rewrite in_packet_false in He by lia. discriminate.
Qed.

Lemma c_str_bytes str s : c_str str = Some s -> Forall is_byte str -> Forall is_byte s.
Proof.
  revert s. induction str as [|c str IH]; intros s; cbn [c_str]; [done|].
  destruct (Z.eqb_spec c 0) as [->|Hc].
  - intros [= <-] _. constructor.
  - destruct (c_str str) as [s'|]; [|done]. intros [= <-] Hb.
    inversion_clear Hb. constructor; [done|]. apply IH; done.
Qed.

Lemma header_kept_trans (p0 p1 p2 : tcpacket_t) :
  header_kept p0 p1 -> header_kept p1 p2 -> header_kept p0 p2.
Proof.
  unfold header_kept. intros (A1 & A2 & A3 & A4 & A5) (B1 & B2 & B3 & B4 & B5).
  repeat split; congruence.
Qed.

(** One successful append: well-formedness, header and count bounds. *)
Lemma append_to_keeps (pkt pkt' : tcpacket_t) (a : append) :
  wf_packet pkt -> append_bytes a -> append_to pkt a = Some pkt' ->
  wf_packet pkt' /\ header_kept pkt pkt' /\
  (tc_fparams pkt <= 29 -> tc_iparams pkt <= 29 -> tc_sparams pkt <= 116 ->
   tc_fparams pkt' <= 29 /\ tc_iparams pkt' <= 29 /\ tc_sparams pkt' <= 116).
Proof.
  intros Hwf Hab He. destruct (counts_range pkt Hwf) as (H9 & H10 & H11).
  destruct a as [v|v|str]; cbn [append_to append_bytes] in *.
  - pose proof (tcpkt_addfloat_Some_inv pkt pkt' v Hwf He) as Hn.
    destruct (tcpkt_addfloat_post pkt Hwf v Hn) as (p & He' & Hwf' & Hp).
    rewrite He in He'. injection He' as <-.
    destruct Hp as (_ & Hc & _ & Hk & Hi & Hs & _).
    split; [done|]. split; [done|]. intros. lia.
  - pose proof (tcpkt_addint_Some_inv pkt pkt' v Hwf He) as Hn.
    destruct (tcpkt_addint_post pkt Hwf v Hn) as (p & He' & Hwf' & Hp).
    rewrite He in He'. injection He' as <-.
    destruct Hp as (_ & Hc & _ & Hk & Hf & Hs & _).
    split; [done|]. split; [done|]. intros. lia.
  - destruct (tcpkt_addstring_Some_inv pkt pkt' str Hwf He) as (s & Hcs & Hn).
    destruct (tcpkt_addstring_post pkt Hwf str s Hcs (c_str_bytes _ _ Hcs Hab) Hn)
      as (p & He' & Hwf' & Hp).
    rewrite He in He'. injection He' as <-.
    destruct Hp as (_ & Hc & _ & Hk & Hf & Hi & _).
    split; [done|]. split; [done|]. intros. lia.
Qed.

(** A sequence of appends keeps what each append keeps. *)
Lemma append_all_keeps (ops : list append) : forall pkt pkt' : tcpacket_t,
  wf_packet pkt -> Forall append_bytes ops ->
  append_all ops pkt = Some pkt' ->
  wf_packet pkt' /\ header_kept pkt pkt'.
Proof.
  induction ops as [|a ops IH]; intros pkt pkt' Hwf Hab He.
  - injection He as <-. split; [done|]. unfold header_kept. done.
  - cbn [append_all] in He. inversion_clear Hab as [|? ? Ha Hops].
    destruct (append_to pkt a) as [p1|] eqn:H1; [|discriminate].
    cbn [mbind option_bind] in He.
    destruct (append_to_keeps pkt p1 a Hwf Ha H1) as (Hwf1 & Hk1 & _).
    destruct (IH p1 pkt' Hwf1 Hops He) as (Hwf' & Hk').
    split; [done|]. exact (header_kept_trans _ _ _ Hk1 Hk').
Qed.

(** X7: whatever builders are called, in whatever order and however
    often, a sequence of appends that returns normally leaves a well-formed
    packet whose seal, crc, cmd, seq and sts fields are the ones it started
    with: the builders write only at offset 12 and above and to their own
    count byte. *)
Theorem appends_keep_header (ops : list append) (pkt pkt' : tcpacket_t) :
  wf_packet pkt -> Forall append_bytes ops ->
  append_all ops pkt = Some pkt' ->
  wf_packet pkt' /\ header_kept pkt pkt'.
Proof. apply append_all_keeps. Qed.

Lemma appends_keep_header_witness :
  exists pkt' : tcpacket_t,
    append_all mixed_appends pkt_with_int = Some pkt' /\
    wf_packet pkt' /\ header_kept pkt_with_int pkt'.
Proof.
  destruct (append_all mixed_appends pkt_with_int) as [pkt'|] eqn:He;
    [|vm_compute in He; discriminate].
  exists pkt'. split; [reflexivity|].
  apply (appends_keep_header mixed_appends pkt_with_int pkt'); [by_evaluation| |exact He].
  unfold mixed_appends. repeat constructor; unfold is_byte; lia.
Defined.

Lemma appends_counts (ops : list append) : forall pkt pkt' : tcpacket_t,
  wf_packet pkt -> Forall append_bytes ops ->
  tc_fparams pkt <= 29 -> tc_iparams pkt <= 29 -> tc_sparams pkt <= 116 ->
  append_all ops pkt = Some pkt' ->
  tc_fparams pkt' <= 29 /\ tc_iparams pkt' <= 29 /\ tc_sparams pkt' <= 116.
Proof.
  induction ops as [|a ops IH]; intros pkt pkt' Hwf Hab Hf Hi Hs He.
  - injection He as <-. done.
  - cbn [append_all] in He. inversion_clear Hab as [|? ? Ha Hops].
    destruct (append_to pkt a) as [p1|] eqn:H1; [|discriminate].
    cbn [mbind option_bind] in He.
    destruct (append_to_keeps pkt p1 a Hwf Ha H1) as (Hwf1 & _ & Hc).
    destruct (Hc Hf Hi Hs) as (Hf1 & Hi1 & Hs1).
    exact (IH p1 pkt' Hwf1 Hops Hf1 Hi1 Hs1 He).
Qed.

(** A call gives a packet exactly when what it stores lies inside the
    buffer; the builders themselves check nothing. *)
Lemma append_to_inside (pkt : tcpacket_t) (a : append) :
  wf_packet pkt -> (is_Some (append_to pkt a) <-> stores_inside pkt a).
Proof.
  intros Hwf. destruct (counts_range pkt Hwf) as (H9 & H10 & H11).
  destruct (Hwf) as [_ Hb].
  destruct a as [v|v|str]; cbn [append_to stores_inside];
    unfold sizeof_float, sizeof_int32_t, TC_MAXLEN;
    rewrite ?float_end_eq, ?int_end_eq by done.
  - split.
    + intros [p Hp]. pose proof (tcpkt_addfloat_Some_inv pkt p v Hwf Hp). lia.
    + intros Hn. rewrite tcpkt_addfloat_eq by (done || lia). eexists; reflexivity.
  - split.
    + intros [p Hp]. pose proof (tcpkt_addint_Some_inv pkt p v Hwf Hp). lia.
    + intros Hn. rewrite tcpkt_addint_eq by (done || lia). eexists; reflexivity.
  - split.
    + intros [p Hp]. destruct (tcpkt_addstring_Some_inv pkt p str Hwf Hp) as (s & Hs & Hn).
      exists s. split; [done|lia].
    + intros (s & Hs & Hn). rewrite (tcpkt_addstring_eq pkt str s) by (done || lia).
      eexists; reflexivity.
Qed.

(** X8: the builders check nothing, so this is about the runs in which
    every call stores inside the 128-byte buffer, which is exactly when
    [append_all] gives a packet ([append_to_inside]); a call that stores
    outside the buffer, such as a 30th float, is outside this statement.  In
    such a run from [tcpkt_init] the seal stays, and staying inside the buffer
    forces nfloat <= 29, nint <= 29 and nstr <= 116, so no count byte has
    wrapped; yet the size that [tcpkt_size] reports can be as much as 360,
    more than the [TC_MAXLEN] bytes of the buffer. *)
Theorem appends_bound_counts (buf : tcpacket_t) (ops : list append)
    (pkt' : tcpacket_t) :
  length buf = 128%nat -> Forall append_bytes ops ->
  append_all ops (tcpkt_init buf) = Some pkt' ->
  tc_seal pkt' = TC_SEAL /\
  tc_fparams pkt' <= 29 /\ tc_iparams pkt' <= 29 /\ tc_sparams pkt' <= 116 /\
  tcpkt_size pkt' <= 360.
Proof.
  intros Hl Hab He. pose proof (wf_init buf Hl) as Hwf0.
  destruct (append_all_keeps ops _ _ Hwf0 Hab He) as (Hwf' & Hseal & _).
  assert (H0 : tc_seal (tcpkt_init buf) = TC_SEAL
               /\ tc_fparams (tcpkt_init buf) = 0 /\ tc_iparams (tcpkt_init buf) = 0
               /\ tc_sparams (tcpkt_init buf) = 0).
  { rewrite (tcpkt_init_full buf Hl). repeat split; vm_compute; reflexivity. }
  destruct H0 as (Hs0 & Hf0 & Hi0 & Hn0).
  assert (Hf0' : tc_fparams (tcpkt_init buf) <= 29) by lia.
  assert (Hi0' : tc_iparams (tcpkt_init buf) <= 29) by lia.
  assert (Hn0' : tc_sparams (tcpkt_init buf) <= 116) by lia.
  destruct (appends_counts ops _ _ Hwf0 Hab Hf0' Hi0' Hn0' He) as (Hf & Hi & Hs).
  split; [congruence|]. split; [done|]. split; [done|]. split; [done|].
  rewrite tcpkt_size_eq by apply Hwf'. lia.
Qed.

Lemma appends_bound_counts_witness :
  exists pkt' : tcpacket_t,
    append_all overfull_appends (tcpkt_init zero_buf) = Some pkt' /\
    (tc_seal pkt' = TC_SEAL /\
     tc_fparams pkt' <= 29 /\ tc_iparams pkt' <= 29 /\ tc_sparams pkt' <= 116 /\
     tcpkt_size pkt' <= 360) /\
    tcpkt_size pkt' = 360.
Proof.
  destruct (append_all overfull_appends (tcpkt_init zero_buf)) as [pkt'|] eqn:He;
    [|vm_compute in He; discriminate].
  exists pkt'. split; [reflexivity|]. split.
  - apply (appends_bound_counts zero_buf overfull_appends pkt'); [reflexivity| |exact He].
    unfold overfull_appends. constructor.
    + by_evaluation.
    + apply Forall_app. split; apply Forall_replicate; exact I.
  - vm_compute in He. injection He as <-. vm_compute. reflexivity.
Defined.

(** ** Strings *)

(** X9: [tcpkt_addstring] copies the characters before the first NUL of
    its argument, and that NUL: whatever follows it in the caller's memory
    plays no part.  The string is then read back through
    [tcpkt_getstring], nstr counts it with its NUL (so it is at least 1, even
    for the empty string), and the size is 12 + 4·nfloat + 4·nint + nstr
    whatever nstr was before. *)
Theorem addstring_stops_at_nul (pkt : tcpacket_t) (s junk : list Z) :
  wf_packet pkt -> Forall is_char s ->
  12 + 4 * tc_fparams pkt + 4 * tc_iparams pkt + Z.of_nat (length s) + 1 <= 128 ->
  exists pkt' : tcpacket_t,
    tcpkt_addstring pkt (s ++ 0 :: junk) = Some pkt' /\
    tcpkt_addstring pkt (s ++ [0]) = Some pkt' /\
    tc_sparams pkt' = Z.of_nat (length s) + 1 /\
    c_str_at pkt' (tcpkt_getstring pkt') = Some s /\
    tcpkt_size pkt' =
      12 + 4 * tc_fparams pkt + 4 * tc_iparams pkt + Z.of_nat (length s) + 1.
Proof.
  intros Hwf Hs Hfit.
  assert (Hsb : Forall is_byte s).
  { eapply Forall_impl; [exact Hs|]. unfold is_char, is_byte. intros; lia. }
  assert (Hsn : Forall (fun ch => ch <> 0) s).
  { eapply Forall_impl; [exact Hs|]. unfold is_char. intros; lia. }
  destruct (tcpkt_addstring_post pkt Hwf (s ++ 0 :: junk) s
              (c_str_app_terminated s junk Hsn) Hsb Hfit) as (pkt' & He & Hwf' & Hp).
  exists pkt'. split; [exact He|]. split.
  - rewrite <- He. unfold tcpkt_addstring.
    rewrite (c_str_terminated s Hsn), (c_str_app_terminated s junk Hsn). reflexivity.
  - destruct Hp as (_ & Hn & Hstr & _ & Hf & Hi & _).
    split; [done|]. split; [done|].
    rewrite tcpkt_size_eq by apply Hwf'. lia.
Qed.

Lemma addstring_stops_at_nul_witness :
  exists pkt' : tcpacket_t,
    tcpkt_addstring pkt_with_int ([] ++ 0 :: [118; 101; 108]) = Some pkt' /\
    tcpkt_addstring pkt_with_int ([] ++ [0]) = Some pkt' /\
    tc_sparams pkt' = Z.of_nat (length (@nil Z)) + 1 /\
    c_str_at pkt' (tcpkt_getstring pkt') = Some [] /\
    tcpkt_size pkt' =
      12 + 4 * tc_fparams pkt_with_int + 4 * tc_iparams pkt_with_int
      + Z.of_nat (length (@nil Z)) + 1.
Proof.
  apply (addstring_stops_at_nul pkt_with_int [] [118; 101; 108]).
  - by_evaluation.
  - constructor.
  - vm_compute. discriminate.
Defined.

(** ** Reading a packet of at most 128 bytes *)

(** X10: in a packet whose size is at most [TC_MAXLEN], every float index
    below nfloat and every int index below nint is read from inside the
    buffer. *)
Theorem accessors_in_bounds (pkt : tcpacket_t) (i : Z) :
  wf_packet pkt -> tcpkt_size pkt <= TC_MAXLEN ->
  (0 <= i < tc_fparams pkt -> is_Some (tcpkt_getfloat pkt i)) /\
  (0 <= i < tc_iparams pkt -> is_Some (tcpkt_getint pkt i)).
Proof.
  intros Hwf Hsz. destruct (counts_range pkt Hwf) as (H9 & H10 & H11).
  rewrite tcpkt_size_eq in Hsz by apply Hwf. unfold TC_MAXLEN in Hsz.
  split; intros Hi.
  - rewrite getfloat_off, u32_small by (change (2 ^ 32) with 4294967296; lia).
    rewrite load32_Some by lia. eexists; reflexivity.
  - rewrite getint_off by apply Hwf.
    rewrite u32_small by (change (2 ^ 32) with 4294967296; lia).
    rewrite load32_Some by lia. eexists; reflexivity.
Qed.

Lemma accessors_in_bounds_witness :
  is_Some (tcpkt_getfloat pkt_full_floats 28) /\
  is_Some (tcpkt_getint pkt_full_ints 28).
Proof.
  split.
  - apply (accessors_in_bounds pkt_full_floats 28);
      [by_evaluation|vm_compute; discriminate|vm_compute; split; [discriminate|reflexivity]].
  - apply (accessors_in_bounds pkt_full_ints 28);
      [by_evaluation|vm_compute; discriminate|vm_compute; split; [discriminate|reflexivity]].
Defined.

Lemma c_str_bounded mem : forall p : nat,
  mem !! p = Some 0 -> exists s, c_str mem = Some s /\ (length s <= p)%nat.
Proof.
  induction mem as [|c mem IH]; intros p Hp; [rewrite lookup_nil in Hp; discriminate|].
  cbn [c_str]. destruct (Z.eqb_spec c 0) as [->|Hc].
  - exists []. split; [reflexivity|cbn; lia].
  - destruct p as [|p]; [cbn in Hp; congruence|]. cbn in Hp.
    destruct (IH p Hp) as (s & -> & Hl). exists (c :: s).
    split; [reflexivity|cbn; lia].
Qed.

(** X11: in a packet whose size is at most [TC_MAXLEN], with nstr > 0 and
    a NUL in the last byte of the string region, the pointer that
    [tcpkt_getstring] returns is a C string that ends inside the region: it
    has fewer than nstr characters. *)
Theorem getstring_in_bounds (pkt : tcpacket_t) :
  wf_packet pkt -> tcpkt_size pkt <= TC_MAXLEN -> 0 < tc_sparams pkt ->
  byte_at pkt (Z.to_nat (tcpkt_size pkt - 1)) = 0 ->
  exists s, c_str_at pkt (tcpkt_getstring pkt) = Some s /\
            Z.of_nat (length s) < tc_sparams pkt.
Proof.
  intros Hwf Hsz Hn Hz. destruct (counts_range pkt Hwf) as (H9 & H10 & H11).
  pose proof (wf_length pkt Hwf) as Hl.
  rewrite tcpkt_size_eq in Hsz, Hz by apply Hwf. unfold TC_MAXLEN in Hsz.
  unfold tcpkt_getstring, c_str_at. rewrite int_end_eq by apply Hwf.
  rewrite in_packet_true by lia.
  set (off := Z.to_nat (12 + 4 * tc_fparams pkt + 4 * tc_iparams pkt)).
  assert (Hp : drop off pkt !! Z.to_nat (tc_sparams pkt - 1) = Some 0).
  { rewrite lookup_drop.
    replace (off + Z.to_nat (tc_sparams pkt - 1))%nat
      with (Z.to_nat (12 + 4 * tc_fparams pkt + 4 * tc_iparams pkt
                      + tc_sparams pkt - 1)) by (subst off; lia).
    unfold byte_at in Hz.
    destruct (pkt !! Z.to_nat (12 + 4 * tc_fparams pkt + 4 * tc_iparams pkt
                               + tc_sparams pkt - 1)) as [b|] eqn:Hb.
    - cbn in Hz. congruence.
    - apply lookup_ge_None in Hb. lia. }
  destruct (c_str_bounded _ _ Hp) as (s & Hs & Hls).
  exists s. split; [exact Hs|lia].
Qed.

Lemma getstring_in_bounds_witness :
  exists s, c_str_at pkt_with_string (tcpkt_getstring pkt_with_string) = Some s /\
            Z.of_nat (length s) < tc_sparams pkt_with_string.
Proof.
  apply (getstring_in_bounds pkt_with_string).
  - by_evaluation.
  - vm_compute. discriminate.
  - vm_compute. reflexivity.
  - vm_compute. reflexivity.
Defined.

(** ** The bytes of a packet built in order *)

Lemma le32_bytes_unique (bs : list Z) v :
  length bs = 4%nat -> Forall is_byte bs ->
  little_endian_to_Z 8 bs = u32 v -> bs = Z_to_little_endian 4 8 v.
Proof.
  intros Hl Hb He.
  rewrite <- (Z_to_little_endian_to_Z 4 8 bs) by (lia || exact Hb).
  rewrite He, <- le32_roundtrip.
  apply Z_to_little_endian_to_Z; [rewrite length_le32; lia|lia|apply le32_is_byte].
Qed.

Lemma load32_bytes (pkt : tcpacket_t) off v :
  wf_packet pkt -> 0 <= off -> off + 4 <= 128 ->
  load32 pkt off = Some (u32 v) ->
  load_bytes pkt off 4 = Some (Z_to_little_endian 4 8 v).
Proof.
  intros Hwf H0 H4. pose proof (wf_length pkt Hwf) as Hl. destruct Hwf as [_ Hb].
  unfold load32, load_bytes. rewrite in_packet_true by lia.
  cbn [fmap option_fmap option_map]. intros [= He]. f_equal.
  apply le32_bytes_unique; [|apply Forall_take, Forall_drop, Hb|exact He].
  rewrite length_take, length_drop. lia.
Qed.

Lemma signed32_inv x v : 0 <= x < 2 ^ 32 -> signed32 x = v -> x = u32 v.
Proof.
  unfold signed32, u32, wrap. change (2 ^ 31) with 2147483648.
  change (2 ^ 32) with 4294967296. intros Hx <-.
  destruct (Z.ltb_spec x 2147483648); Z.div_mod_to_equations; lia.
Qed.

Lemma load32_range (pkt : tcpacket_t) off x :
  wf_packet pkt -> load32 pkt off = Some x -> 0 <= x < 2 ^ 32.
Proof.
  intros [_ Hb]. unfold load32, load_bytes.
  destruct (in_packet off (Z.of_nat 4)); [|discriminate].
  cbn [fmap option_fmap option_map]. intros [= <-].
  pose proof (little_endian_to_Z_bound 8 (take 4 (drop (Z.to_nat off) pkt))) as Hbd.
  assert (Hlen : (length (take 4 (drop (Z.to_nat off) pkt)) <= 4)%nat)
    by (rewrite length_take; lia).
  destruct Hbd as [Hlo Hhi]; [lia|apply Forall_take, Forall_drop, Hb|].
  split; [exact Hlo|]. eapply Z.lt_le_trans; [exact Hhi|].
  apply Z.pow_le_mono_r; lia.
Qed.

Lemma c_str_take mem s : c_str mem = Some s -> take (S (length s)) mem = s ++ [0].
Proof.
  revert s. induction mem as [|c mem IH]; intros s; cbn [c_str]; [done|].
  destruct (Z.eqb_spec c 0) as [->|Hc].
  - intros [= <-]. reflexivity.
  - destruct (c_str mem) as [s'|]; [|done]. intros [= <-].
    cbn [length take app]. f_equal. apply IH. reflexivity.
Qed.

Lemma getfloat_bytes (pkt : tcpacket_t) (i : nat) f :
  wf_packet pkt -> is_float_bits f -> 12 + 4 * Z.of_nat i + 4 <= 128 ->
  tcpkt_getfloat pkt (Z.of_nat i) = Some f ->
  load_bytes pkt (12 + 4 * Z.of_nat i) 4 = Some (Z_to_little_endian 4 8 f).
Proof.
  intros Hwf Hf Hfit Hg. rewrite getfloat_off in Hg.
  rewrite u32_small in Hg by (change (2 ^ 32) with 4294967296; lia).
  apply load32_bytes; [done|lia|lia|]. rewrite Hg. f_equal. symmetry.
  apply u32_small, Hf.
Qed.

Lemma getint_bytes (pkt : tcpacket_t) (j : nat) v :
  wf_packet pkt -> 12 + 4 * tc_fparams pkt + 4 * Z.of_nat j + 4 <= 128 ->
  tcpkt_getint pkt (Z.of_nat j) = Some v ->
  load_bytes pkt (12 + 4 * tc_fparams pkt + 4 * Z.of_nat j) 4
  = Some (Z_to_little_endian 4 8 v).
Proof.
  intros Hwf Hfit Hg. destruct (counts_range pkt Hwf) as (H9 & _).
  rewrite getint_off in Hg by apply Hwf.
  rewrite u32_small in Hg by (change (2 ^ 32) with 4294967296; lia).
  destruct (load32 pkt (12 + 4 * tc_fparams pkt + 4 * Z.of_nat j)) as [x|] eqn:Hx;
    [|discriminate].
  cbn [fmap option_fmap option_map] in Hg. injection Hg as Hg.
  apply load32_bytes; [done|lia|lia|]. rewrite Hx. f_equal.
  apply signed32_inv; [|exact Hg]. exact (load32_range pkt _ x Hwf Hx).
Qed.

Lemma tcpkt_init_zero (buf : tcpacket_t) (j : nat) :
  length buf = 128%nat -> (4 <= j < 128)%nat -> tcpkt_init buf !! j = Some 0.
Proof.
  intros Hl Hj. rewrite (tcpkt_init_full buf Hl).
  replace (tcpkt_init zero_buf) with (seal_bytes ++ replicate 124 0)
    by (vm_compute; reflexivity).
  rewrite lookup_app_r by (cbn; lia). apply lookup_replicate_2. cbn. lia.
Qed.

(** X12: the bytes of a packet built in order.  After [tcpkt_init], the
    floats of [F], the ints of [I] and the string [S] if there is one (at most
    116 bytes in all), the 9 bytes before the counts are the seal and zeros,
    the counts are the lengths, float [i] lies at offset 12 + 4·i and int [j]
    at offset 12 + 4·|F| + 4·j, each as 4 little-endian bytes (a negative int
    in two's complement), the string and its NUL follow the ints, the size is
    12 plus the bytes of the parameters, and every byte from there to the end
    of the buffer is zero. *)
Theorem encode_layout (buf : tcpacket_t) (F I : list Z) (S : option (list Z)) :
  length buf = 128%nat ->
  Forall is_float_bits F -> Forall is_int32 I ->
  (forall s, S = Some s -> Forall is_char s) ->
  tail_size F I S <= 116 ->
  exists pkt : tcpacket_t,
    encode buf F I S = Some pkt /\
    tcpkt_size pkt = 12 + tail_size F I S /\
    take 9 pkt = seal_bytes ++ [0; 0; 0; 0; 0] /\
    tc_fparams pkt = Z.of_nat (length F) /\
    tc_iparams pkt = Z.of_nat (length I) /\
    tc_sparams pkt = match S with Some s => Z.of_nat (length s) + 1 | None => 0 end /\
    (forall (i : nat) f, F !! i = Some f ->
       load_bytes pkt (12 + 4 * Z.of_nat i) 4 = Some (Z_to_little_endian 4 8 f)) /\
    (forall (j : nat) v, I !! j = Some v ->
       load_bytes pkt (12 + 4 * Z.of_nat (length F) + 4 * Z.of_nat j) 4
       = Some (Z_to_little_endian 4 8 v)) /\
    (forall s, S = Some s ->
       load_bytes pkt (12 + 4 * Z.of_nat (length F) + 4 * Z.of_nat (length I))
                  (Datatypes.S (length s))
       = Some (s ++ [0])) /\
    (forall j : nat, 12 + tail_size F I S <= Z.of_nat j < 128 -> pkt !! j = Some 0).
Proof.
  intros Hl HF HI HS Hsz. unfold encode.
  pose proof (wf_init buf Hl) as Hwf0. set (p0 := tcpkt_init buf) in *.
  assert (H0 : tc_fparams p0 = 0 /\ tc_iparams p0 = 0 /\ tc_sparams p0 = 0
               /\ take 9 p0 = seal_bytes ++ [0; 0; 0; 0; 0]).
  { subst p0. rewrite (tcpkt_init_full buf Hl). repeat split; vm_compute; reflexivity. }
  destruct H0 as (Hf0 & Hi0 & Hn0 & Hhd0).
  assert (Hfi : 4 * Z.of_nat (length F) + 4 * Z.of_nat (length I) <= 116).
  { unfold tail_size in Hsz. destruct S; lia. }
  (* the floats *)
  destruct (add_all_floats F p0 Hwf0) as (p1 & HeF & Hwf1 & Hun1 & Hf1 & HgetF);
    [lia|exact HF|].
  rewrite Hf0 in Hun1, Hf1, HgetF. rewrite Z.add_0_l in Hf1.
  assert (Hi1 : tc_iparams p1 = 0)
    by (rewrite <- Hi0; apply (unchanged_outside_count _ _ _ _ _ 10%nat Hun1); lia).
  assert (Hn1 : tc_sparams p1 = 0)
    by (rewrite <- Hn0; apply (unchanged_outside_count _ _ _ _ _ 11%nat Hun1); lia).
  (* the ints *)
  destruct (add_all_ints I p1 Hwf1) as (p2 & HeI & Hwf2 & Hun2 & Hi2 & HgetI);
    [lia|exact HI|].
  rewrite Hf1, Hi1 in Hun2. rewrite Hi1 in Hi2, HgetI. rewrite Z.add_0_l in Hi2.
  assert (Hf2 : tc_fparams p2 = Z.of_nat (length F))
    by (rewrite <- Hf1; apply (unchanged_outside_count _ _ _ _ _ 9%nat Hun2); lia).
  assert (Hn2 : tc_sparams p2 = 0)
    by (rewrite <- Hn1; apply (unchanged_outside_count _ _ _ _ _ 11%nat Hun2); lia).
  assert (HF2 : forall (i : nat) f, F !! i = Some f ->
            load_bytes p2 (12 + 4 * Z.of_nat i) 4 = Some (Z_to_little_endian 4 8 f)).
  { intros i f Hf. pose proof (lookup_lt_Some _ _ _ Hf) as Hlt.
    apply getfloat_bytes; [done| |lia|].
    - exact (Forall_lookup_1 _ _ _ _ HF Hf).
    - rewrite (unchanged_outside_getfloat _ _ _ _ _ _ Hun2) by lia.
      rewrite <- (Z.add_0_l (Z.of_nat i)). apply (HgetF i f Hf). }
  assert (HI2 : forall (j : nat) v, I !! j = Some v ->
            load_bytes p2 (12 + 4 * Z.of_nat (length F) + 4 * Z.of_nat j) 4
            = Some (Z_to_little_endian 4 8 v)).
  { intros j v Hv. pose proof (lookup_lt_Some _ _ _ Hv) as Hlt.
    rewrite <- Hf2. apply getint_bytes; [done|lia|].
    rewrite <- (Z.add_0_l (Z.of_nat j)). apply (HgetI j v Hv). }
  assert (Hhd2 : take 9 p2 = seal_bytes ++ [0; 0; 0; 0; 0]).
  { rewrite <- Hhd0. destruct Hun1 as [_ Hfr1]. destruct Hun2 as [_ Hfr2].
    apply (slice_agree p0 p2 0 9). intros j Hj.
    rewrite Hfr2, Hfr1 by lia. reflexivity. }
  assert (Hz2 : forall j : nat,
             12 + 4 * Z.of_nat (length F) + 4 * Z.of_nat (length I) <= Z.of_nat j < 128 ->
             p2 !! j = Some 0).
  { intros j Hj. destruct Hun1 as [_ Hfr1]. destruct Hun2 as [_ Hfr2].
    rewrite Hfr2, Hfr1 by lia. subst p0. apply tcpkt_init_zero; [done|lia]. }
  rewrite HeF. cbn [mbind option_bind]. rewrite HeI. cbn [mbind option_bind].
  destruct S as [s|].
  - specialize (HS s eq_refl). unfold tail_size in *.
    assert (Hsb : Forall is_byte s).
    { eapply Forall_impl; [exact HS|]. unfold is_char, is_byte. intros; lia. }
    assert (Hsn : Forall (fun ch => ch <> 0) s).
    { eapply Forall_impl; [exact HS|]. unfold is_char. intros; lia. }
    destruct (tcpkt_addstring_post p2 Hwf2 (s ++ [0]) s (c_str_terminated s Hsn) Hsb)
      as (p3 & HeS & Hwf3 & Hp); [lia|].
    destruct Hp as (Hun3 & Hn3 & Hstr & _ & Hf3 & Hi3 & _).
    rewrite Hf2, Hi2 in Hun3. destruct (Hun3) as [_ Hfr3].
    exists p3. split; [exact HeS|].
    split; [rewrite tcpkt_size_eq by apply Hwf3; lia|].
    split.
    { rewrite <- Hhd2. apply (slice_agree p2 p3 0 9). intros j Hj. apply Hfr3; lia. }
    split; [congruence|]. split; [congruence|]. split; [exact Hn3|].
    split; [|split; [|split]].
    + intros i f Hf. pose proof (lookup_lt_Some _ _ _ Hf) as Hlt.
      rewrite <- (HF2 i f Hf). apply load_bytes_agree. intros j Hj. apply Hfr3; lia.
    + intros j v Hv. pose proof (lookup_lt_Some _ _ _ Hv) as Hlt.
      rewrite <- (HI2 j v Hv). apply load_bytes_agree. intros k Hk. apply Hfr3; lia.
    + intros s' [= <-]. unfold tcpkt_getstring, c_str_at in Hstr.
      rewrite int_end_eq, Hf3, Hi3, Hf2, Hi2 in Hstr by apply Hwf3.
      rewrite in_packet_true in Hstr by lia.
      unfold load_bytes. rewrite in_packet_true by lia. f_equal.
      apply c_str_take, Hstr.
    + intros j Hj. rewrite Hfr3 by lia. apply Hz2. lia.
  - exists p2. split; [reflexivity|]. unfold tail_size in *.
    split; [rewrite tcpkt_size_eq by apply Hwf2; lia|].
    split; [exact Hhd2|]. split; [done|]. split; [done|]. split; [done|].
    split; [exact HF2|]. split; [exact HI2|]. split; [intros s [=]|].
    intros j Hj. apply Hz2. lia.
Qed.

Lemma encode_layout_witness :
  exists pkt : tcpacket_t,
    encode pkt_full_ints [0x3FC00000; 0x80000000] [-2] (Some [118; 0xE9]) = Some pkt /\
    tcpkt_size pkt = 12 + tail_size [0x3FC00000; 0x80000000] [-2] (Some [118; 0xE9]) /\
    take 9 pkt = seal_bytes ++ [0; 0; 0; 0; 0] /\
    tc_fparams pkt = Z.of_nat (length [0x3FC00000; 0x80000000]) /\
    tc_iparams pkt = Z.of_nat (length [-2]) /\
    tc_sparams pkt = Z.of_nat (length [118; 0xE9]) + 1 /\
    (forall (i : nat) f, [0x3FC00000; 0x80000000] !! i = Some f ->
       load_bytes pkt (12 + 4 * Z.of_nat i) 4 = Some (Z_to_little_endian 4 8 f)) /\
    (forall (j : nat) v, [-2] !! j = Some v ->
       load_bytes pkt (12 + 4 * Z.of_nat (length [0x3FC00000; 0x80000000])
                       + 4 * Z.of_nat j) 4
       = Some (Z_to_little_endian 4 8 v)) /\
    (forall s, Some [118; 0xE9] = Some s ->
       load_bytes pkt (12 + 4 * Z.of_nat (length [0x3FC00000; 0x80000000])
                       + 4 * Z.of_nat (length [-2]))
                  (Datatypes.S (length s))
       = Some (s ++ [0])) /\
    (forall j : nat,
        12 + tail_size [0x3FC00000; 0x80000000] [-2] (Some [118; 0xE9])
          <= Z.of_nat j < 128 ->
        pkt !! j = Some 0).
Proof.
  apply (encode_layout pkt_full_ints [0x3FC00000; 0x80000000] [-2]
           (Some [118; 0xE9])).
  - reflexivity.
  - repeat constructor; vm_compute; discriminate.
  - repeat constructor; vm_compute; discriminate.
  - intros s [= <-]. repeat constructor.
  - vm_compute; discriminate.
Defined.

(** ** Command codes and the response bit *)

(** X13: the command codes of the header are pairwise different and all
    lie below [TCCMD_RESPBIT], so a command with the response bit set is a
    byte, is none of the command codes, and gives the command back when the
    bit is cleared; two commands stay different with the bit set. *)
Theorem response_bit_separates (c c' : Z) :
  c ∈ tc_commands -> c' ∈ tc_commands ->
  NoDup tc_commands /\
  0 <= c < TCCMD_RESPBIT /\
  is_byte (Z.lor c TCCMD_RESPBIT) /\
  (Z.lor c TCCMD_RESPBIT ∉ tc_commands) /\
  Z.land (Z.lor c TCCMD_RESPBIT) (Z.lnot TCCMD_RESPBIT) = c /\
  (Z.lor c TCCMD_RESPBIT = Z.lor c' TCCMD_RESPBIT -> c = c').
Proof.
  intros Hc Hc'.
  split; [refine (bool_decide_unpack _ _); vm_compute; exact I|].
  assert (Hall : Forall (fun x =>
            0 <= x < TCCMD_RESPBIT /\ is_byte (Z.lor x TCCMD_RESPBIT) /\
            (Z.lor x TCCMD_RESPBIT ∉ tc_commands) /\
            Z.land (Z.lor x TCCMD_RESPBIT) (Z.lnot TCCMD_RESPBIT) = x) tc_commands).
  { unfold tc_commands. repeat constructor; try (vm_compute; congruence).
    all: refine (bool_decide_unpack _ _); vm_compute; exact I. }
  rewrite Forall_forall in Hall.
  destruct (Hall c Hc) as (H1 & H2 & H3 & H4).
  destruct (Hall c' Hc') as (_ & _ & _ & H4').
  split; [done|]. split; [done|]. split; [done|]. split; [done|].
  intros He. rewrite <- H4, <- H4', He. reflexivity.
Qed.

Lemma response_bit_separates_witness :
  NoDup tc_commands /\
  0 <= TCCMD_GETFPROP < TCCMD_RESPBIT /\
  is_byte (Z.lor TCCMD_GETFPROP TCCMD_RESPBIT) /\
  (Z.lor TCCMD_GETFPROP TCCMD_RESPBIT ∉ tc_commands) /\
  Z.land (Z.lor TCCMD_GETFPROP TCCMD_RESPBIT) (Z.lnot TCCMD_RESPBIT) = TCCMD_GETFPROP /\
  (Z.lor TCCMD_GETFPROP TCCMD_RESPBIT = Z.lor TCCMD_STATUS TCCMD_RESPBIT ->
   TCCMD_GETFPROP = TCCMD_STATUS).
Proof.
  apply (response_bit_separates TCCMD_GETFPROP TCCMD_STATUS).
  - refine (bool_decide_unpack _ _); vm_compute; exact I.
  - refine (bool_decide_unpack _ _); vm_compute; exact I.
Defined.

